(** * YAHOO.util.Config: the configuration property store of the YUI container

    Shallow embedding of [YAHOO.util.Config]
    (widget/container/build/js/container_core-raw.js, lines 10-272) and the
    properties of its operations.

    Modelling conventions.
    - The private members [config], [deferredEvents] and [initialConfig] and
      the public member [owner] form the state record [Config]; every method
      is a computation in the monad [M], which threads that record, reads the
      document, collects the notifications that were fired and may end in a
      thrown [TypeError].
    - Object literals used as maps are association lists with unique keys,
      enumerated by [for (var k in o)] in insertion order; assigning to an
      existing key keeps its position.  Names that resolve through
      [Object.prototype] and index-like names (which engines enumerate first)
      are outside the model.
    - Values are [undefined], [null], booleans, integer numbers and plain
      objects; on these the loose comparison [!=] needs no string conversion
      and is modelled exactly.
    - Listeners are the environment of the store.  Firing a CustomEvent is
      recorded in the trace together with the subscriber list it is delivered
      to; listener bodies are not run, so every statement below describes what
      the store itself does during a call whose listeners do not call back
      into it. *)

From Stdlib Require Import String List ZArith Bool Lia.
Import ListNotations.
Local Open Scope string_scope.
Local Open Scope list_scope.

(** ** JavaScript values *)

#[local] Set Warnings "-register-all".

Inductive JSValue : Type :=
| VUndefined
| VNull
| VBool (b : bool)
| VNum (n : Z)
| VObj (addr : nat) (members : list (string * JSValue)).

Inductive JSError : Type := TypeError.

(** Object literals used as maps from names to [A]. *)
Definition JSObject (A : Type) : Type := list (string * A).

(** [o[k]]; [None] stands for a missing own property. *)
Fixpoint get {A : Type} (o : JSObject A) (k : string) : option A :=
  match o with
  | [] => None
  | (k', a) :: o' => if String.eqb k k' then Some a else get o' k
  end.

(** [o[k] = a]. *)
Fixpoint put {A : Type} (o : JSObject A) (k : string) (a : A) : JSObject A :=
  match o with
  | [] => [(k, a)]
  | (k', a') :: o' =>
      if String.eqb k k' then (k', a) :: o' else (k', a') :: put o' k a
  end.

(** The names visited by [for (var k in o)]. *)
Definition keys {A : Type} (o : JSObject A) : list string := map fst o.

(** [userConfig[prop]] read as a value: a missing property reads [undefined]. *)
Definition read (o : JSObject JSValue) (k : string) : JSValue :=
  match get o k with
  | Some v => v
  | None => VUndefined
  end.

(** The loose comparison [a == b] on the modelled values: [null] and
    [undefined] equal each other and nothing else, a boolean is compared as
    the number 0 or 1, objects are compared by identity and a plain object
    converts to a string that is not a number. *)
Definition abstract_eq (a b : JSValue) : bool :=
  match a, b with
  | VUndefined, VUndefined | VUndefined, VNull
  | VNull, VUndefined | VNull, VNull => true
  | VBool x, VBool y => Bool.eqb x y
  | VNum x, VNum y => Z.eqb x y
  | VBool x, VNum y => Z.eqb (if x then 1 else 0) y
  | VNum x, VBool y => Z.eqb x (if y then 1 else 0)
  | VObj x _, VObj y _ => Nat.eqb x y
  | _, _ => false
  end.

(** [a != b]. *)
Definition abstract_ne (a b : JSValue) : bool := negb (abstract_eq a b).

(** ** The collaborators *)

Definition Handler : Type := nat.
Definition Element : Type := nat.
Definition Owner : Type := nat.

(** Modelled from the spec: [YAHOO.util.CustomEvent], which is not part of
    the container sources.  A change channel is a broadcast channel with
    several independent subscribers, invoked in subscription order, each
    optionally rebound to a supplied execution context. *)
Record Subscriber : Type := MkSubscriber {
  fn : Handler;
  obj : option Owner;
  override : bool
}.

Record CustomEvent : Type := MkCustomEvent {
  type : string;
  subscribers : list Subscriber
}.

(** [ev.subscribe(fn, obj, override)] *)
Definition subscribe (ev : CustomEvent) (s : Subscriber) : CustomEvent :=
  MkCustomEvent (type ev) (subscribers ev ++ [s]).

(** Modelled from the spec: [YAHOO.util.Dom.inDocument], a synchronous and
    side-effect-free query telling whether an element is part of the live
    document. *)
Definition DOM : Type := Element -> bool.

(** ** The store *)

Record Property : Type := MkProperty {
  event : CustomEvent;
  handler : option Handler;
  dependentElement : option Element;
  defaultValue : JSValue;
  value : JSValue;
  validator : option (JSValue -> bool);
  mustChange : bool
}.

Record Config : Type := MkConfig {
  owner : Owner;
  config : JSObject Property;
  deferredEvents : JSObject JSValue;   (* key -> { args : value } *)
  initialConfig : JSObject JSValue
}.

(** [new YAHOO.util.Config(owner)] *)
Definition init (o : Owner) : Config := MkConfig o [] [] [].

(** What a listener of the store can observe. *)
Inductive Notification : Type :=
| PropertyFire (key : string) (ev : CustomEvent) (arg : JSValue)
    (* property.event.fire(value), for the property registered as key *)
| ConfigChangedFire (key : string) (arg : JSValue) (deferred : bool).
    (* this.configChangedEvent.fire([key, value, deferred]) *)

(** ** The monad of the methods *)

Inductive Outcome (A : Type) : Type :=
| Return (a : A)
| Throw (e : JSError).
Arguments Return {A} a.
Arguments Throw {A} e.

Record Run (A : Type) : Type := MkRun {
  outcome : Outcome A;
  final : Config;
  trace : list Notification
}.
Arguments MkRun {A} _ _ _.
Arguments outcome {A} _.
Arguments final {A} _.
Arguments trace {A} _.

Definition M (A : Type) : Type := DOM -> Config -> Run A.

Definition ret {A : Type} (a : A) : M A :=
  fun _ c => MkRun (Return a) c [].

Definition bind {A B : Type} (m : M A) (f : A -> M B) : M B :=
  fun d c =>
    let r := m d c in
    match outcome r with
    | Return a =>
        let r' := f a d (final r) in
        MkRun (outcome r') (final r') (trace r ++ trace r')
    | Throw e => MkRun (Throw e) (final r) (trace r)
    end.

Notation "x <- m ;; k" := (bind m (fun x => k))
  (at level 61, m at next level, right associativity).
Notation "m ;; k" := (bind m (fun _ => k))
  (at level 61, right associativity).

Definition throw {A : Type} (e : JSError) : M A :=
  fun _ c => MkRun (Throw e) c [].

Definition getState : M Config :=
  fun _ c => MkRun (Return c) c [].

Definition putState (c : Config) : M unit :=
  fun _ _ => MkRun (Return tt) c [].

Definition inDocument (el : Element) : M bool :=
  fun d c => MkRun (Return (d el)) c [].

Definition emit (n : Notification) : M unit :=
  fun _ c => MkRun (Return tt) c [n].

Definition lift {A : Type} (o : Outcome A) : M A :=
  fun _ c => MkRun o c [].

(** [for (var prop in o) body] over the names of [o]. *)
Fixpoint forIn (names : list string) (body : string -> M unit) : M unit :=
  match names with
  | [] => ret tt
  | prop :: rest => body prop ;; forIn rest body
  end.

Definition set_config (c : Config) (cfg : JSObject Property) : Config :=
  MkConfig (owner c) cfg (deferredEvents c) (initialConfig c).

Definition set_deferredEvents (c : Config) (q : JSObject JSValue) : Config :=
  MkConfig (owner c) (config c) q (initialConfig c).

Definition set_initialConfig (c : Config) (i : JSObject JSValue) : Config :=
  MkConfig (owner c) (config c) (deferredEvents c) i.

Definition set_value (p : Property) (v : JSValue) : Property :=
  MkProperty (event p) (handler p) (dependentElement p) (defaultValue p) v
             (validator p) (mustChange p).

Definition set_event (p : Property) (ev : CustomEvent) : Property :=
  MkProperty ev (handler p) (dependentElement p) (defaultValue p) (value p)
             (validator p) (mustChange p).

(** [v.value]: a property read faults on [undefined] and [null], reads
    [undefined] from a primitive and reads the member of an object. *)
Definition getMember (v : JSValue) (name : string) : Outcome JSValue :=
  match v with
  | VUndefined | VNull => Throw TypeError
  | VBool _ | VNum _ => Return VUndefined
  | VObj _ members => Return (read members name)
  end.

(** ** The methods of Config *)

(** [property.dependentElement && ! YAHOO.util.Dom.inDocument(property.dependentElement)] *)
Definition cannotFireYet (property : Property) : M bool :=
  match dependentElement property with
  | Some el => b <- inDocument el ;; ret (negb b)
  | None => ret false
  end.

(** The private function [fireEvent] (lines 38-52). *)
Definition fireEvent (key : string) (property : Property) (v : JSValue) : M bool :=
  blocked <- cannotFireYet property ;;
  if blocked then
    c <- getState ;;
    putState (set_deferredEvents c (put (deferredEvents c) key v)) ;;
    ret true
  else
    (if mustChange property then
       if abstract_ne (defaultValue property) (value property)
       then emit (PropertyFire key (event property) v)
       else ret tt
     else emit (PropertyFire key (event property) v)) ;;
    ret false.

(** [setProperty] (lines 145-166). *)
Definition setProperty (key : string) (v : JSValue) (silent : bool) : M bool :=
  c <- getState ;;
  match get (config c) key with
  | Some property =>
      if match validator property with
         | Some vfn => negb (vfn v)
         | None => false
         end
      then ret false
      else
        let property := set_value property v in
        putState (set_config c (put (config c) key property)) ;;
        (if negb silent then
           deferred <- fireEvent key property v ;;
           emit (ConfigChangedFire key v deferred)
         else ret tt) ;;
        ret true
  | None => ret false
  end.

(** [addProperty] (lines 65-78). *)
Definition addProperty (key : string) (val : JSValue) (hdl : option Handler)
    (vfn : option (JSValue -> bool)) (el : option Element) (mc : bool) : M unit :=
  c <- getState ;;
  let property := MkProperty (MkCustomEvent key []) hdl el val VNull vfn mc in
  let property :=
    match handler property with
    | Some h => set_event property
                  (subscribe (event property) (MkSubscriber h (Some (owner c)) true))
    | None => property
    end in
  putState (set_config c (put (config c) key property)) ;;
  setProperty key val true ;;
  ret tt.

(** [getConfig] (lines 84-95). *)
Definition getConfig (c : Config) : JSObject JSValue :=
  fold_left (fun cfg prop =>
               match get (config c) prop with
               | Some property => put cfg prop (value property)
               | None => cfg
               end) (keys (config c)) [].

(** [getProperty] (lines 102-109). *)
Definition getProperty (c : Config) (key : string) : JSValue :=
  match get (config c) key with
  | Some property => value property
  | None => VUndefined
  end.

(** [getDefault] (lines 116-123). *)
Definition getDefault (c : Config) (key : string) : JSValue :=
  match get (config c) key with
  | Some property => defaultValue property
  | None => VUndefined
  end.

(** [resetProperty] (lines 129-136): the argument of the set is
    [initialConfig[key].value]. *)
Definition resetProperty (key : string) : M JSValue :=
  c <- getState ;;
  match get (config c) key with
  | Some _ =>
      v <- lift (getMember (read (initialConfig c) key) "value") ;;
      setProperty key v false ;;
      ret VUndefined
  | None => ret VUndefined
  end.

(** [refireEvent] (lines 172-177). *)
Definition refireEvent (key : string) : M unit :=
  c <- getState ;;
  match get (config c) key with
  | Some property => fireEvent key property (value property) ;; ret tt
  | None => ret tt
  end.

(** The body of the first loop of [applyConfig] (line 189). *)
Definition assignOne (userConfig : JSObject JSValue) (prop : string) : M unit :=
  setProperty prop (read userConfig prop) true ;; ret tt.

(** The first loop of [applyConfig] (lines 188-190). *)
Definition silentPass (userConfig : JSObject JSValue) : M unit :=
  forIn (keys userConfig) (assignOne userConfig).

(** The body of the second loop of [applyConfig] (lines 192-195). *)
Definition fireOne (userConfig : JSObject JSValue) (prop : string) : M unit :=
  c <- getState ;;
  match get (config c) prop with
  | Some property => fireEvent prop property (read userConfig prop) ;; ret tt
  | None => ret tt
  end.

(** The second loop of [applyConfig] (lines 191-196). *)
Definition firePass (userConfig : JSObject JSValue) : M unit :=
  forIn (keys userConfig) (fireOne userConfig).

(** [applyConfig] (lines 184-198). *)
Definition applyConfig (userConfig : JSObject JSValue) (init : bool) : M unit :=
  (if init then
     c <- getState ;; putState (set_initialConfig c userConfig)
   else ret tt) ;;
  silentPass userConfig ;;
  firePass userConfig.

(** [refresh] (lines 203-207). *)
Definition refresh : M unit :=
  c <- getState ;;
  forIn (keys (config c)) refireEvent.

(** [reset] (lines 212-214). *)
Definition reset : M unit :=
  c <- getState ;;
  applyConfig (initialConfig c) false.

(** [subscribeToConfigEvent] (lines 224-232). *)
Definition subscribeToConfigEvent (key : string) (h : Handler)
    (o : option Owner) (ovr : bool) : M bool :=
  c <- getState ;;
  match get (config c) key with
  | Some property =>
      let property := set_event property
                        (subscribe (event property) (MkSubscriber h o ovr)) in
      putState (set_config c (put (config c) key property)) ;;
      ret true
  | None => ret false
  end.

(** The body of the loop of [fireDeferredEvents] (lines 239-242): the
    argument of the fire is [deferredEvents[prop].args], read when the entry
    is visited. *)
Definition flushOne (prop : string) : M unit :=
  c <- getState ;;
  match get (config c) prop with
  | Some property =>
      match get (deferredEvents c) prop with
      | Some args => fireEvent prop property args ;; ret tt
      | None => throw TypeError
      end
  | None => ret tt
  end.

(** [fireDeferredEvents] (lines 237-244). *)
Definition fireDeferredEvents : M unit :=
  c <- getState ;;
  forIn (keys (deferredEvents c)) flushOne.

(** The built-in validators (lines 253-272). *)
Definition checkBoolean (val : JSValue) : bool :=
  match val with
  | VBool _ => true
  | _ => false
  end.

Definition checkNumber (val : JSValue) : bool :=
  match val with
  | VUndefined | VObj _ _ => false
  | VNull | VBool _ | VNum _ => true
  end.

(** ** What a call to [fireEvent] amounts to *)

(** The DOM dependency of a property is absent or attached. *)
Definition satisfied (d : DOM) (p : Property) : bool :=
  match dependentElement p with
  | Some el => d el
  | None => true
  end.

(** The [mustChange] gate, which compares the default with the current value. *)
Definition passesGate (p : Property) : bool :=
  if mustChange p then abstract_ne (defaultValue p) (value p) else true.

(** The validator of a property is absent or accepts the value. *)
Definition accepts (p : Property) (v : JSValue) : bool :=
  match validator p with
  | Some vfn => vfn v
  | None => true
  end.

(** The notifications of one satisfied fire of [key] with payload [v]. *)
Definition delivery (key : string) (p : Property) (v : JSValue) : list Notification :=
  if passesGate p then [PropertyFire key (event p) v] else [].

(** The notifications of running the fire logic for [k] with the payload
    that [payloads] holds for it, on descriptors [cfg]. *)
Definition fireEntry (d : DOM) (cfg : JSObject Property)
    (payloads : JSObject JSValue) (k : string) : list Notification :=
  match get cfg k with
  | Some p => if satisfied d p then delivery k p (read payloads k) else []
  | None => []
  end.

(** The deferred queue after running the fire logic for [k]. *)
Definition deferEntry (d : DOM) (cfg : JSObject Property)
    (payloads : JSObject JSValue) (q : JSObject JSValue) (k : string)
    : JSObject JSValue :=
  match get cfg k with
  | Some p => if satisfied d p then q else put q k (read payloads k)
  | None => q
  end.

(** The descriptors after a silent set of [k] to [v]. *)
Definition assign (cfg : JSObject Property) (k : string) (v : JSValue)
    : JSObject Property :=
  match get cfg k with
  | Some p => if accepts p v then put cfg k (set_value p v) else cfg
  | None => cfg
  end.

Definition assignAll (userConfig : JSObject JSValue) (names : list string)
    (cfg : JSObject Property) : JSObject Property :=
  fold_left (fun cfg k => assign cfg k (read userConfig k)) names cfg.

Definition isAggregate (n : Notification) : bool :=
  match n with
  | ConfigChangedFire _ _ _ => true
  | PropertyFire _ _ _ => false
  end.

(** A computation that never fires the aggregate channel. *)
Definition quiet {A : Type} (m : M A) : Prop :=
  forall d c, forallb (fun n => negb (isAggregate n)) (trace (m d c)) = true.

(** ** Stores used as concrete inputs *)

Module Fixtures.
(** No element is attached to the document / every element is. *)
Definition detached : DOM := fun _ => false.
Definition attached : DOM := fun _ => true.

(** The final store of a sequence of calls made on a fresh Config. *)
Definition after {A : Type} (m : M A) (d : DOM) : Config :=
  final (m d (init 0)).

(** [addProperty("n", 0, h1, undefined, el5)], then [setProperty("n", 7)]
    while [el5] is detached. *)
Definition pendingN : Config :=
  after (addProperty "n" (VNum 0) (Some 1) None (Some 5) false ;;
         setProperty "n" (VNum 7) false) detached.

(** [addProperty("n", false, h1, checkBoolean, undefined, true)] *)
Definition gatedN : Config :=
  after (addProperty "n" (VBool false) (Some 1) (Some checkBoolean) None true)
        detached.

(** [addProperty("a", 1); addProperty("b", 2, h1, checkNumber, el5, true)] *)
Definition twoProps : Config :=
  after (addProperty "a" (VNum 1) None None None false ;;
         addProperty "b" (VNum 2) (Some 1) (Some checkNumber) (Some 5) true)
        detached.

(** [twoProps], then [applyConfig({a: 10}, true); setProperty("a", 99)] *)
Definition snapshotA : Config :=
  after (addProperty "a" (VNum 1) None None None false ;;
         addProperty "b" (VNum 2) (Some 1) (Some checkNumber) (Some 5) true ;;
         applyConfig [("a", VNum 10)] true ;;
         setProperty "a" (VNum 99) false) detached.
End Fixtures.

(** ** Sequences of calls *)

(** The calls a user of the store can make that may change it. *)
Inductive Call : Type :=
| AddProperty (key : string) (val : JSValue) (hdl : option Handler)
    (vfn : option (JSValue -> bool)) (el : option Element) (mc : bool)
| SetProperty (key : string) (v : JSValue) (silent : bool)
| ResetProperty (key : string)
| RefireEvent (key : string)
| ApplyConfig (userConfig : JSObject JSValue) (init : bool)
| Refresh
| Reset
| SubscribeToConfigEvent (key : string) (h : Handler) (o : option Owner)
    (ovr : bool)
| FireDeferredEvents.

(** The store a call leaves behind (also when the call throws). *)
Definition perform (call : Call) (d : DOM) (c : Config) : Config :=
  match call with
  | AddProperty key val hdl vfn el mc =>
      final (addProperty key val hdl vfn el mc d c)
  | SetProperty key v silent => final (setProperty key v silent d c)
  | ResetProperty key => final (resetProperty key d c)
  | RefireEvent key => final (refireEvent key d c)
  | ApplyConfig userConfig init => final (applyConfig userConfig init d c)
  | Refresh => final (refresh d c)
  | Reset => final (reset d c)
  | SubscribeToConfigEvent key h o ovr =>
      final (subscribeToConfigEvent key h o ovr d c)
  | FireDeferredEvents => final (fireDeferredEvents d c)
  end.

(** The stores that calls can produce from a fresh Config, the document
    being in any state at each call. *)
Inductive reachable : Config -> Prop :=
| reachable_init (o : Owner) : reachable (init o)
| reachable_call (c : Config) (call : Call) (d : DOM) :
    reachable c -> reachable (perform call d c).

Definition isAddProperty (call : Call) : bool :=
  match call with
  | AddProperty _ _ _ _ _ _ => true
  | _ => false
  end.

Definition isInitialApply (call : Call) : bool :=
  match call with
  | ApplyConfig _ true => true
  | _ => false
  end.

(** A sequence of calls, each with the document of its time. *)
Fixpoint performAll (calls : list (Call * DOM)) (c : Config) : Config :=
  match calls with
  | [] => c
  | (call, d) :: rest => performAll rest (perform call d c)
  end.

(** The descriptor [addProperty] stores before it seeds the value. *)
Definition newProperty (o : Owner) (key : string) (val : JSValue)
    (hdl : option Handler) (vfn : option (JSValue -> bool))
    (el : option Element) (mc : bool) : Property :=
  MkProperty
    (MkCustomEvent key
       match hdl with
       | Some h => [MkSubscriber h (Some o) true]
       | None => []
       end)
    hdl el val VNull vfn mc.

(** The current value of a property is [null] or passed its validator. *)
Definition validated (p : Property) : Prop :=
  value p = VNull \/ accepts p (value p) = true.

(** The handler given at registration is the first subscriber of the
    channel, bound to the owner. *)
Definition handlerFirst (o : Owner) (p : Property) : Prop :=
  match handler p with
  | Some h => exists rest,
      subscribers (event p) = MkSubscriber h (Some o) true :: rest
  | None => True
  end.

(** Two descriptors that differ at most in the current value and in
    subscribers added at the end of the channel. *)
Definition sameRegistration (p p' : Property) : Prop :=
  defaultValue p' = defaultValue p /\
  validator p' = validator p /\
  handler p' = handler p /\
  dependentElement p' = dependentElement p /\
  mustChange p' = mustChange p /\
  type (event p') = type (event p) /\
  exists added, subscribers (event p') = subscribers (event p) ++ added.

(** [p'] is [p] after some sets that passed validation and some
    subscriptions. *)
Definition later (p p' : Property) : Prop :=
  sameRegistration p p' /\
  (value p' = value p \/ accepts p (value p') = true).

(** The descriptors [cfg'] are those of [cfg], name by name and in the same
    order, each one possibly [later]. *)
Definition evolved (cfg cfg' : JSObject Property) : Prop :=
  keys cfg' = keys cfg /\
  forall k p, get cfg k = Some p -> exists p', get cfg' k = Some p' /\ later p p'.

(** [q[k] = v] for each pair of the list, in order. *)
Definition putAll (q : JSObject JSValue) (puts : list (string * JSValue))
    : JSObject JSValue :=
  fold_left (fun q kv => put q (fst kv) (snd kv)) puts q.

(** What every method but [addProperty] does to the store: the owner stays,
    descriptors get [later], and the deferred queue receives values for
    registered names. *)
Definition evolves (c c' : Config) : Prop :=
  owner c' = owner c /\
  evolved (config c) (config c') /\
  exists puts, deferredEvents c' = putAll (deferredEvents c) puts /\
               forall k, In k (map fst puts) -> In k (keys (config c)).

(** The shape every store built by calls has: names are unique in the
    descriptors and in the deferred queue, every pending name is registered,
    and every descriptor holds a validated value and a channel named after
    the property whose first subscriber is the registered handler. *)
Definition wellFormed (c : Config) : Prop :=
  NoDup (keys (config c)) /\
  NoDup (keys (deferredEvents c)) /\
  (forall k, In k (keys (deferredEvents c)) -> In k (keys (config c))) /\
  (forall k p, get (config c) k = Some p ->
               validated p /\ type (event p) = k /\ handlerFirst (owner c) p).

(** The notification is a fire of the channel of property [key]. *)
Definition firesFor (key : string) (n : Notification) : bool :=
  match n with
  | PropertyFire k _ _ => String.eqb k key
  | ConfigChangedFire _ _ _ => false
  end.

(** ** User-agent detection of Module and the iframe default of Overlay *)

(** [s.indexOf(t) != -1] *)
Definition contains (s t : string) : bool :=
  match String.index 0 t s with
  | Some _ => true
  | None => false
  end.

(** [this.platform] (lines 413-421); [None] stands for [false]. *)
Definition platform (ua : string) : option string :=
  if contains ua "windows" || contains ua "win32" then Some "windows"
  else if contains ua "macintosh" then Some "mac"
  else None.

(** [this.browser] (lines 427-441); [None] stands for [false]. *)
Definition browser (ua : string) : option string :=
  if contains ua "opera" then Some "opera"
  else if contains ua "msie 7" then Some "ie7"
  else if contains ua "msie" then Some "ie"
  else if contains ua "safari" then Some "safari"
  else if contains ua "gecko" then Some "gecko"
  else None.

(** [x == "name"] for [x] a string or [false]. *)
Definition isNamed (x : option string) (name : string) : bool :=
  match x with
  | Some s => String.eqb s name
  | None => false
  end.

(** The default of the "iframe" property of Overlay (line 905). *)
Definition iframeDefault (ua : string) : bool :=
  if isNamed (browser ua) "ie"
     || (isNamed (platform ua) "mac" && isNamed (browser ua) "gecko")
  then true else false.

(** ** Object literals *)

Section ObjectLiterals.
Context {A : Type}.
Implicit Types (o : JSObject A) (k : string) (a : A).

Lemma get_put_same o k a : get (put o k a) k = Some a.
Proof.
  induction o as [|[k' a'] o IH]; simpl.
  - now rewrite String.eqb_refl.
  - destruct (String.eqb k k') eqn:E; simpl; rewrite E; auto.
Qed.

Lemma get_put_other o k k' a : k <> k' -> get (put o k a) k' = get o k'.
Proof.
  intros Hne. induction o as [|[k0 a0] o IH]; simpl.
  - destruct (String.eqb k' k) eqn:E; auto.
    apply String.eqb_eq in E. congruence.
  - destruct (String.eqb k k0) eqn:E; simpl.
    + apply String.eqb_eq in E. subst k0.
      destruct (String.eqb k' k) eqn:E'; auto.
      apply String.eqb_eq in E'. congruence.
    + now rewrite IH.
Qed.

Lemma put_get_id o k a : get o k = Some a -> put o k a = o.
Proof.
  induction o as [|[k' a'] o IH]; simpl; [discriminate|].
  destruct (String.eqb k k') eqn:E.
  - now intros [= ->].
  - intros H. now rewrite IH.
Qed.

Lemma keys_put_present o k a a' :
  get o k = Some a' -> keys (put o k a) = keys o.
Proof.
  induction o as [|[k' a0] o IH]; simpl; [discriminate|].
  destruct (String.eqb k k') eqn:E; simpl; auto.
  intros H. f_equal. now apply IH.
Qed.

Lemma keys_put_absent o k a :
  get o k = None -> keys (put o k a) = keys o ++ [k].
Proof.
  induction o as [|[k' a0] o IH]; simpl; auto.
  destruct (String.eqb k k') eqn:E; [discriminate|].
  intros H. simpl. f_equal. now apply IH.
Qed.

Lemma in_keys_get o k : In k (keys o) -> exists a, get o k = Some a.
Proof.
  induction o as [|[k' a'] o IH]; simpl; [tauto|].
  intros [->|H].
  - rewrite String.eqb_refl. eauto.
  - destruct (String.eqb k k'); eauto.
Qed.

Lemma NoDup_keys_put o k a : NoDup (keys o) -> NoDup (keys (put o k a)).
Proof.
  intros Hnd. destruct (get o k) as [a'|] eqn:E.
  - now rewrite (keys_put_present _ _ _ _ E).
  - rewrite (keys_put_absent _ _ _ E).
    apply NoDup_app; repeat split; auto.
    + constructor; [simpl; tauto | constructor].
    + intros x Hx [<-|[]]. destruct (in_keys_get _ _ Hx) as [? ?]. congruence.
Qed.
End ObjectLiterals.

(** ** The monad *)

Ltac run :=
  unfold bind, ret, getState, putState, emit, throw, lift, inDocument; simpl.

Lemma bind_run {A B : Type} (m : M A) (f : A -> M B) d c a c' t :
  m d c = MkRun (Return a) c' t ->
  bind m f d c =
  MkRun (outcome (f a d c')) (final (f a d c')) (t ++ trace (f a d c')).
Proof. intros H. unfold bind. now rewrite H. Qed.

Lemma bind_pure {A B : Type} (m : M A) (f : A -> M B) d c a c' :
  m d c = MkRun (Return a) c' [] -> bind m f d c = f a d c'.
Proof. intros H. unfold bind. rewrite H. simpl. now destruct (f a d c'). Qed.

Lemma quiet_ret {A : Type} (a : A) : quiet (ret a).
Proof. intros d c. reflexivity. Qed.

Lemma quiet_bind {A B : Type} (m : M A) (f : A -> M B) :
  quiet m -> (forall a, quiet (f a)) -> quiet (bind m f).
Proof.
  intros Hm Hf d c. unfold bind.
  destruct (outcome (m d c)) eqn:E; simpl.
  - rewrite forallb_app, Hm. apply Hf.
  - apply Hm.
Qed.

Lemma quiet_forIn (names : list string) (body : string -> M unit) :
  (forall prop, quiet (body prop)) -> quiet (forIn names body).
Proof.
  intros Hb. induction names as [|prop rest IH]; simpl.
  - apply quiet_ret.
  - apply quiet_bind; auto.
Qed.

Lemma quiet_getState : quiet getState.
Proof. intros d c. reflexivity. Qed.

Lemma quiet_putState (c : Config) : quiet (putState c).
Proof. intros d c'. reflexivity. Qed.

Lemma quiet_throw {A : Type} (e : JSError) : quiet (@throw A e).
Proof. intros d c. reflexivity. Qed.

Lemma quiet_emit_property key ev v : quiet (emit (PropertyFire key ev v)).
Proof. intros d c. reflexivity. Qed.

Create HintDb quiet.
#[local] Hint Resolve quiet_ret quiet_getState quiet_putState quiet_throw
  quiet_emit_property : quiet.

(** ** fireEvent and setProperty *)

Lemma cannotFireYet_run (p : Property) (d : DOM) (c : Config) :
  cannotFireYet p d c = MkRun (Return (negb (satisfied d p))) c [].
Proof.
  unfold cannotFireYet, satisfied.
  destruct (dependentElement p); reflexivity.
Qed.

Lemma fireEvent_satisfied key p v d c :
  satisfied d p = true ->
  fireEvent key p v d c = MkRun (Return false) c (delivery key p v).
Proof.
  intros Hs. unfold fireEvent, bind at 1. rewrite cannotFireYet_run, Hs.
  unfold delivery, passesGate. simpl.
  destruct (mustChange p); [destruct (abstract_ne _ _)|]; reflexivity.
Qed.

Lemma fireEvent_deferred key p v d c :
  satisfied d p = false ->
  fireEvent key p v d c =
  MkRun (Return true) (set_deferredEvents c (put (deferredEvents c) key v)) [].
Proof.
  intros Hs. unfold fireEvent, bind at 1. rewrite cannotFireYet_run, Hs.
  reflexivity.
Qed.

Lemma quiet_fireEvent key p v : quiet (fireEvent key p v).
Proof.
  intros d c. destruct (satisfied d p) eqn:Hs.
  - rewrite fireEvent_satisfied by assumption. simpl.
    unfold delivery. destruct (passesGate p); reflexivity.
  - rewrite fireEvent_deferred by assumption. reflexivity.
Qed.
#[local] Hint Resolve quiet_fireEvent : quiet.

Lemma setProperty_unknown key v silent d c :
  get (config c) key = None ->
  setProperty key v silent d c = MkRun (Return false) c [].
Proof. intros H. unfold setProperty. run. now rewrite H. Qed.

Lemma setProperty_rejected key p v silent d c :
  get (config c) key = Some p -> accepts p v = false ->
  setProperty key v silent d c = MkRun (Return false) c [].
Proof.
  unfold accepts. intros H Hv. unfold setProperty. run. rewrite H.
  destruct (validator p); [|discriminate]. now rewrite Hv.
Qed.

Lemma setProperty_silent key p v d c :
  get (config c) key = Some p -> accepts p v = true ->
  setProperty key v true d c =
  MkRun (Return true) (set_config c (put (config c) key (set_value p v))) [].
Proof.
  unfold accepts. intros H Hv. unfold setProperty. run. rewrite H.
  destruct (validator p); [rewrite Hv|]; reflexivity.
Qed.

Lemma setProperty_loud key p v d c :
  get (config c) key = Some p -> accepts p v = true ->
  let c1 := set_config c (put (config c) key (set_value p v)) in
  let r := fireEvent key (set_value p v) v d c1 in
  setProperty key v false d c =
  match outcome r with
  | Return deferred =>
      MkRun (Return true) (final r) (trace r ++ [ConfigChangedFire key v deferred])
  | Throw e => MkRun (Throw e) (final r) (trace r)
  end.
Proof.
  intros H Hv c1 r. unfold accepts in Hv. unfold setProperty. run. rewrite H.
  assert (E : match validator p with Some vfn => negb (vfn v) | None => false end = false).
  { destruct (validator p); [now rewrite Hv | reflexivity]. }
  rewrite E. simpl. fold c1. fold r.
  destruct (outcome r); simpl; [|reflexivity].
  now rewrite app_nil_r.
Qed.

(** ** Rejected and unknown sets *)

(** C7: a set whose value the validator of the property rejects returns
    [false], leaves the whole store as it was and fires nothing, neither on
    the channel of the property nor on the aggregate channel, whether the
    set is silent or not. *)
Theorem setProperty_rejected_C7 key p vfn v silent d c :
  get (config c) key = Some p ->
  validator p = Some vfn ->
  vfn v = false ->
  setProperty key v silent d c = MkRun (Return false) c [].
Proof.
  intros Hp Hv Hrej. apply setProperty_rejected with p; auto.
  unfold accepts. now rewrite Hv.
Qed.

Lemma setProperty_rejected_C7_witness :
  setProperty "n" (VNum 3) false Fixtures.detached Fixtures.gatedN =
  MkRun (Return false) Fixtures.gatedN [].
Proof.
  eapply (setProperty_rejected_C7 "n" _ checkBoolean (VNum 3) false);
    reflexivity.
Defined.

(** C8: for a name without a descriptor, [getProperty] and [getDefault]
    return [undefined], [setProperty] and [subscribeToConfigEvent] return
    [false], [resetProperty] returns [undefined]; none of them throws, fires
    or changes the store. *)
Theorem unknown_name_C8 key v silent h o ovr d c :
  get (config c) key = None ->
  getProperty c key = VUndefined /\
  getDefault c key = VUndefined /\
  setProperty key v silent d c = MkRun (Return false) c [] /\
  resetProperty key d c = MkRun (Return VUndefined) c [] /\
  subscribeToConfigEvent key h o ovr d c = MkRun (Return false) c [].
Proof.
  intros H. unfold getProperty, getDefault. rewrite H.
  repeat split.
  - now apply setProperty_unknown.
  - unfold resetProperty. run. now rewrite H.
  - unfold subscribeToConfigEvent. run. now rewrite H.
Qed.

Lemma unknown_name_C8_witness :
  getProperty Fixtures.twoProps "nope" = VUndefined /\
  getDefault Fixtures.twoProps "nope" = VUndefined /\
  setProperty "nope" (VNum 1) false Fixtures.attached Fixtures.twoProps =
    MkRun (Return false) Fixtures.twoProps [] /\
  resetProperty "nope" Fixtures.attached Fixtures.twoProps =
    MkRun (Return VUndefined) Fixtures.twoProps [] /\
  subscribeToConfigEvent "nope" 2 None false Fixtures.attached Fixtures.twoProps =
    MkRun (Return false) Fixtures.twoProps [].
Proof.
  apply (unknown_name_C8 "nope" (VNum 1) false 2 None false). reflexivity.
Defined.

(** ** Deferral and the mustChange gate *)

(** C5: on a registered property whose DOM dependency is not attached, a
    non-silent set of a value that passes validation stores the value as the
    pending entry of that name, replacing a pending entry in place (so the
    queue keeps one entry per name), fires nothing on the channel of the
    property and fires the aggregate channel once with the deferred flag
    [true]. *)
Theorem setProperty_defers_C5 key p el v d c :
  get (config c) key = Some p ->
  dependentElement p = Some el ->
  d el = false ->
  accepts p v = true ->
  let r := setProperty key v false d c in
  outcome r = Return true /\
  trace r = [ConfigChangedFire key v true] /\
  getProperty (final r) key = v /\
  deferredEvents (final r) = put (deferredEvents c) key v /\
  get (deferredEvents (final r)) key = Some v /\
  (forall w, get (deferredEvents c) key = Some w ->
             keys (deferredEvents (final r)) = keys (deferredEvents c)) /\
  (NoDup (keys (deferredEvents c)) -> NoDup (keys (deferredEvents (final r)))).
Proof.
  intros Hp Hel Hd Hv r.
  assert (Hs : satisfied d (set_value p v) = false).
  { unfold satisfied. simpl. now rewrite Hel. }
  assert (Hr : r = MkRun (Return true)
                     (set_deferredEvents
                        (set_config c (put (config c) key (set_value p v)))
                        (put (deferredEvents c) key v))
                     [ConfigChangedFire key v true]).
  { subst r. rewrite (setProperty_loud key p v d c Hp Hv).
    now rewrite (fireEvent_deferred _ _ _ _ _ Hs). }
  rewrite Hr. simpl. repeat split.
  - unfold getProperty. simpl. now rewrite get_put_same.
  - apply get_put_same.
  - intros w Hw. now apply keys_put_present with w.
  - apply NoDup_keys_put.
Qed.

Lemma setProperty_defers_C5_witness :
  let r := setProperty "n" (VNum 8) false Fixtures.detached Fixtures.pendingN in
  trace r = [ConfigChangedFire "n" (VNum 8) true] /\
  deferredEvents (final r) = [("n", VNum 8)].
Proof.
  destruct (setProperty_defers_C5 "n"
              (MkProperty (MkCustomEvent "n" [MkSubscriber 1 (Some 0) true])
                          (Some 1) (Some 5) (VNum 0) (VNum 7) None false)
              5 (VNum 8) Fixtures.detached Fixtures.pendingN
              eq_refl eq_refl eq_refl eq_refl)
    as (_ & Ht & _ & Hq & _).
  split; [exact Ht | exact Hq].
Defined.

(** C6: on a registered property with [mustChange] set whose DOM dependency
    is absent or attached, a non-silent set of a value that passes validation
    fires the channel of the property exactly when the value being set is
    [!=] to the default stored in the descriptor, whatever the previous
    current value was, and then fires the aggregate channel with the deferred
    flag [false]; the set leaves the default as it was.  With default
    [false], setting [false] does not fire the channel of the property and
    setting [true] fires it. *)
Theorem setProperty_mustChange_C6 key p v d c :
  get (config c) key = Some p ->
  mustChange p = true ->
  satisfied d p = true ->
  accepts p v = true ->
  let r := setProperty key v false d c in
  outcome r = Return true /\
  getDefault (final r) key = defaultValue p /\
  trace r = (if abstract_ne (defaultValue p) v
             then [PropertyFire key (event p) v] else [])
            ++ [ConfigChangedFire key v false] /\
  (In (PropertyFire key (event p) v) (trace r) <->
   abstract_ne (defaultValue p) v = true) /\
  (defaultValue p = VBool false -> v = VBool false ->
   trace r = [ConfigChangedFire key v false]) /\
  (defaultValue p = VBool false -> v = VBool true ->
   trace r = [PropertyFire key (event p) v; ConfigChangedFire key v false]).
Proof.
  intros Hp Hmc Hs Hv r.
  assert (Hr : r = MkRun (Return true)
                     (set_config c (put (config c) key (set_value p v)))
                     ((if abstract_ne (defaultValue p) v
                       then [PropertyFire key (event p) v] else [])
                      ++ [ConfigChangedFire key v false])).
  { subst r. rewrite (setProperty_loud key p v d c Hp Hv).
    rewrite fireEvent_satisfied by exact Hs.
    unfold delivery, passesGate. simpl. now rewrite Hmc. }
  rewrite Hr. simpl. repeat split.
  - unfold getDefault. simpl. now rewrite get_put_same.
  - destruct (abstract_ne (defaultValue p) v); simpl; auto.
    intros [H|[]]. discriminate.
  - intros H. rewrite H. simpl. auto.
  - intros Hdef ->. now rewrite Hdef.
  - intros Hdef ->. now rewrite Hdef.
Qed.

Lemma setProperty_mustChange_C6_witness :
  trace (setProperty "n" (VBool true) false Fixtures.detached Fixtures.gatedN) =
  [PropertyFire "n" (MkCustomEvent "n" [MkSubscriber 1 (Some 0) true]) (VBool true);
   ConfigChangedFire "n" (VBool true) false] /\
  trace (setProperty "n" (VBool false) false Fixtures.detached Fixtures.gatedN) =
  [ConfigChangedFire "n" (VBool false) false].
Proof.
  split.
  - apply (setProperty_mustChange_C6 "n"
             (MkProperty (MkCustomEvent "n" [MkSubscriber 1 (Some 0) true])
                         (Some 1) None (VBool false) (VBool false)
                         (Some checkBoolean) true)
             (VBool true) Fixtures.detached Fixtures.gatedN
             eq_refl eq_refl eq_refl eq_refl); reflexivity.
  - apply (setProperty_mustChange_C6 "n"
             (MkProperty (MkCustomEvent "n" [MkSubscriber 1 (Some 0) true])
                         (Some 1) None (VBool false) (VBool false)
                         (Some checkBoolean) true)
             (VBool false) Fixtures.detached Fixtures.gatedN
             eq_refl eq_refl eq_refl eq_refl); reflexivity.
Defined.

(** ** The loops *)

Lemma set_config_id c : set_config c (config c) = c.
Proof. now destruct c. Qed.

Lemma set_deferredEvents_id c : set_deferredEvents c (deferredEvents c) = c.
Proof. now destruct c. Qed.

Lemma set_value_id p : set_value p (value p) = p.
Proof. now destruct p. Qed.

Lemma get_in_keys {A : Type} (o : JSObject A) k a :
  get o k = Some a -> In k (keys o).
Proof.
  induction o as [|[k' a'] o IH]; simpl; [discriminate|].
  destruct (String.eqb k k') eqn:E.
  - apply String.eqb_eq in E. auto.
  - auto.
Qed.

Lemma read_get (o : JSObject JSValue) k v : get o k = Some v -> read o k = v.
Proof. unfold read. now intros ->. Qed.

Lemma flushOne_run k args d c :
  get (deferredEvents c) k = Some args ->
  flushOne k d c =
  MkRun (Return tt) c (fireEntry d (config c) (deferredEvents c) k).
Proof.
  intros Hq. unfold flushOne, fireEntry. run.
  destruct (get (config c) k) as [p|] eqn:Hp; simpl; [|reflexivity].
  rewrite Hq, (read_get _ _ _ Hq).
  destruct (satisfied d p) eqn:Hs.
  - rewrite fireEvent_satisfied by exact Hs. simpl. now rewrite app_nil_r.
  - rewrite fireEvent_deferred by exact Hs. simpl.
    now rewrite (put_get_id _ _ _ Hq), set_deferredEvents_id.
Qed.

Lemma flush_loop names d c :
  (forall k, In k names -> In k (keys (deferredEvents c))) ->
  forIn names flushOne d c =
  MkRun (Return tt) c
        (flat_map (fireEntry d (config c) (deferredEvents c)) names).
Proof.
  induction names as [|k rest IH]; intros Hin; simpl; [reflexivity|].
  destruct (in_keys_get _ k (Hin k (or_introl eq_refl))) as [args Hq].
  unfold bind. rewrite (flushOne_run k args d c Hq). simpl.
  rewrite IH by (intros; apply Hin; now right). reflexivity.
Qed.

Lemma fireDeferredEvents_run d c :
  fireDeferredEvents d c =
  MkRun (Return tt) c
        (flat_map (fireEntry d (config c) (deferredEvents c))
                  (keys (deferredEvents c))).
Proof.
  unfold fireDeferredEvents, bind at 1. unfold getState at 1. simpl.
  now rewrite flush_loop by auto.
Qed.

Lemma in_fireEntry n d cfg payloads k :
  In n (fireEntry d cfg payloads k) ->
  exists p, get cfg k = Some p /\ satisfied d p = true /\
            passesGate p = true /\
            n = PropertyFire k (event p) (read payloads k).
Proof.
  unfold fireEntry, delivery.
  destruct (get cfg k) as [p|]; [|intros []].
  destruct (satisfied d p) eqn:Hs; [|intros []].
  destruct (passesGate p) eqn:Hg; [|intros []].
  intros [<-|[]]. exists p. repeat split; assumption.
Qed.

Lemma assignOne_run uc k d c :
  assignOne uc k d c =
  MkRun (Return tt) (set_config c (assign (config c) k (read uc k))) [].
Proof.
  unfold assignOne, assign, bind.
  destruct (get (config c) k) as [p|] eqn:Hp.
  - destruct (accepts p (read uc k)) eqn:Hv.
    + now rewrite (setProperty_silent _ _ _ _ _ Hp Hv).
    + rewrite (setProperty_rejected _ _ _ _ _ _ Hp Hv). simpl.
      now rewrite set_config_id.
  - rewrite (setProperty_unknown _ _ _ _ _ Hp). simpl.
    now rewrite set_config_id.
Qed.

Lemma silent_loop uc names d c :
  forIn names (assignOne uc) d c =
  MkRun (Return tt) (set_config c (assignAll uc names (config c))) [].
Proof.
  revert c. induction names as [|k rest IH]; intros c; simpl.
  - unfold ret. now rewrite set_config_id.
  - unfold bind. rewrite assignOne_run. simpl. rewrite IH. reflexivity.
Qed.

Lemma fireOne_run uc k d c :
  fireOne uc k d c =
  MkRun (Return tt)
        (set_deferredEvents c (deferEntry d (config c) uc (deferredEvents c) k))
        (fireEntry d (config c) uc k).
Proof.
  unfold fireOne, fireEntry, deferEntry. run.
  destruct (get (config c) k) as [p|] eqn:Hp; simpl.
  - destruct (satisfied d p) eqn:Hs.
    + rewrite fireEvent_satisfied by exact Hs. simpl.
      now rewrite app_nil_r, set_deferredEvents_id.
    + rewrite fireEvent_deferred by exact Hs. reflexivity.
  - now rewrite set_deferredEvents_id.
Qed.

Lemma fire_loop uc names d c :
  forIn names (fireOne uc) d c =
  MkRun (Return tt)
        (set_deferredEvents c
           (fold_left (deferEntry d (config c) uc) names (deferredEvents c)))
        (flat_map (fireEntry d (config c) uc) names).
Proof.
  revert c. induction names as [|k rest IH]; intros c; simpl.
  - unfold ret. now rewrite set_deferredEvents_id.
  - unfold bind. rewrite fireOne_run. simpl. rewrite IH. reflexivity.
Qed.

Lemma get_assign cfg k' v' k :
  get (assign cfg k' v') k =
  match get cfg k with
  | Some p => if String.eqb k' k && accepts p v'
              then Some (set_value p v') else Some p
  | None => None
  end.
Proof.
  unfold assign. destruct (String.eqb k' k) eqn:E.
  - apply String.eqb_eq in E. subst k'.
    destruct (get cfg k) as [p|] eqn:Hp; simpl; [|exact Hp].
    destruct (accepts p v'); [apply get_put_same | exact Hp].
  - assert (Hne : k' <> k) by (intros ->; now rewrite String.eqb_refl in E).
    simpl. destruct (get cfg k') as [p'|].
    + destruct (accepts p' v').
      * rewrite get_put_other by exact Hne. now destruct (get cfg k).
      * now destruct (get cfg k).
    + now destruct (get cfg k).
Qed.

Lemma assignAll_value uc names : forall cfg k p,
  get cfg k = Some p ->
  accepts p (read uc k) = true ->
  In k names \/ value p = read uc k ->
  get (assignAll uc names cfg) k = Some (set_value p (read uc k)).
Proof.
  induction names as [|a rest IH]; intros cfg k p Hp Hv Hin; simpl.
  - destruct Hin as [[]|Hval]. now rewrite <- Hval, set_value_id.
  - pose proof (get_assign cfg a (read uc a) k) as Hg. rewrite Hp in Hg.
    destruct (String.eqb a k) eqn:E; simpl in Hg.
    + apply String.eqb_eq in E. subst a. rewrite Hv in Hg.
      rewrite (IH _ k _ Hg); simpl; auto.
    + apply IH; auto. destruct Hin as [[->|Hin]|Hval]; auto.
      now rewrite String.eqb_refl in E.
Qed.

Lemma deferAll_get d cfg uc names : forall q k p,
  get cfg k = Some p ->
  satisfied d p = false ->
  In k names \/ get q k = Some (read uc k) ->
  get (fold_left (deferEntry d cfg uc) names q) k = Some (read uc k).
Proof.
  induction names as [|a rest IH]; intros q k p Hp Hs Hin; simpl.
  - now destruct Hin as [[]|Hq].
  - destruct (String.eqb a k) eqn:E.
    + apply String.eqb_eq in E. subst a.
      apply IH with p; auto. right.
      unfold deferEntry. rewrite Hp, Hs. apply get_put_same.
    + assert (Hne : a <> k) by (intros ->; now rewrite String.eqb_refl in E).
      apply IH with p; auto.
      destruct Hin as [[Heq|Hin]|Hq]; [congruence | now left | right].
      unfold deferEntry.
      destruct (get cfg a) as [pa|]; auto.
      destruct (satisfied d pa); auto.
      now rewrite get_put_other.
Qed.

Lemma applyConfig_run uc (init : bool) d c :
  let c0 := if init then set_initialConfig c uc else c in
  let c1 := set_config c0 (assignAll uc (keys uc) (config c0)) in
  applyConfig uc init d c =
  MkRun (Return tt)
        (set_deferredEvents c1
           (fold_left (deferEntry d (config c1) uc) (keys uc) (deferredEvents c1)))
        (flat_map (fireEntry d (config c1) uc) (keys uc)).
Proof.
  intros c0 c1. unfold applyConfig, silentPass, firePass.
  assert (H0 : (if init
                then c' <- getState ;; putState (set_initialConfig c' uc)
                else ret tt) d c = MkRun (Return tt) c0 []).
  { subst c0. destruct init; reflexivity. }
  rewrite (bind_run _ _ _ _ _ _ _ H0).
  rewrite (bind_run _ _ _ _ _ _ _ (silent_loop uc (keys uc) d c0)).
  fold c1. now rewrite fire_loop.
Qed.

Lemma flush_fire_inv key ev w d c :
  In (PropertyFire key ev w) (trace (fireDeferredEvents d c)) ->
  exists p, get (config c) key = Some p /\ satisfied d p = true /\
            passesGate p = true /\ ev = event p /\
            w = read (deferredEvents c) key.
Proof.
  rewrite fireDeferredEvents_run. simpl. intros H.
  apply in_flat_map in H. destruct H as (k & _ & H).
  apply in_fireEntry in H. destruct H as (p & Hp & Hs & Hg & E).
  injection E as -> -> ->. exists p. auto.
Qed.

(** ** Flushing the deferred queue *)

(** C1 (as the code has it): for a name with a pending entry and a
    descriptor, [fireDeferredEvents] runs the fire logic with the pending
    value.  The channel of the property fires with the pending value when the
    DOM dependency is absent or attached at flush time and the [mustChange]
    gate lets it through, and it fires with nothing else; when the dependency
    is still detached nothing fires for it.  The call never throws and leaves
    the store as it was, so the entry stays in the deferred queue. *)
Theorem fireDeferredEvents_C1 key p v d c :
  get (deferredEvents c) key = Some v ->
  get (config c) key = Some p ->
  let r := fireDeferredEvents d c in
  outcome r = Return tt /\
  final r = c /\
  get (deferredEvents (final r)) key = Some v /\
  (satisfied d p = true -> passesGate p = true ->
   In (PropertyFire key (event p) v) (trace r)) /\
  (forall ev w, In (PropertyFire key ev w) (trace r) ->
                ev = event p /\ w = v /\
                satisfied d p = true /\ passesGate p = true).
Proof.
  intros Hq Hp r. subst r. repeat split.
  - now rewrite fireDeferredEvents_run.
  - now rewrite fireDeferredEvents_run.
  - now rewrite fireDeferredEvents_run.
  - intros Hs Hg. rewrite fireDeferredEvents_run. simpl.
    apply in_flat_map. exists key. split; [now apply get_in_keys with v|].
    unfold fireEntry, delivery. rewrite Hp, Hs, Hg, (read_get _ _ _ Hq).
    now left.
  - destruct (flush_fire_inv _ _ _ _ _ H) as (p' & Hp' & _ & _ & -> & _).
    congruence.
  - destruct (flush_fire_inv _ _ _ _ _ H) as (p' & _ & _ & _ & _ & ->).
    now apply read_get.
  - destruct (flush_fire_inv _ _ _ _ _ H) as (p' & Hp' & Hs & _).
    congruence.
  - destruct (flush_fire_inv _ _ _ _ _ H) as (p' & Hp' & _ & Hg & _).
    congruence.
Qed.

Lemma fireDeferredEvents_C1_witness :
  final (fireDeferredEvents Fixtures.attached Fixtures.pendingN) = Fixtures.pendingN /\
  In (PropertyFire "n" (MkCustomEvent "n" [MkSubscriber 1 (Some 0) true]) (VNum 7))
     (trace (fireDeferredEvents Fixtures.attached Fixtures.pendingN)).
Proof.
  destruct (fireDeferredEvents_C1 "n"
              (MkProperty (MkCustomEvent "n" [MkSubscriber 1 (Some 0) true])
                          (Some 1) (Some 5) (VNum 0) (VNum 7) None false)
              (VNum 7) Fixtures.attached Fixtures.pendingN eq_refl eq_refl)
    as (_ & Hc & _ & Hfire & _).
  split; [exact Hc | exact (Hfire eq_refl eq_refl)].
Defined.

(** C1 as stated fails on the store where 7 is pending for "n": while the
    dependency is detached the flush fires nothing, and after a flush with
    the dependency attached the entry is still in the queue. *)
Lemma fireDeferredEvents_C1_counterexample :
  get (deferredEvents Fixtures.pendingN) "n" = Some (VNum 7) /\
  trace (fireDeferredEvents Fixtures.detached Fixtures.pendingN) = [] /\
  get (deferredEvents
         (final (fireDeferredEvents Fixtures.attached Fixtures.pendingN))) "n"
  = Some (VNum 7).
Proof. repeat split. Qed.

(** C10: when the DOM dependency of a property is still detached while
    [fireDeferredEvents] visits its pending entry, the pending value is
    stored again under the same name: after the call the queue still holds
    that value for the name, nothing was fired on the channel of the property
    and the call returned normally. *)
Theorem fireDeferredEvents_redefers_C10 key p el v d c :
  get (config c) key = Some p ->
  dependentElement p = Some el ->
  d el = false ->
  get (deferredEvents c) key = Some v ->
  let r := fireDeferredEvents d c in
  outcome r = Return tt /\
  get (deferredEvents (final r)) key = Some v /\
  keys (deferredEvents (final r)) = keys (deferredEvents c) /\
  (forall ev w, ~ In (PropertyFire key ev w) (trace r)) /\
  fireEvent key p v d c =
  MkRun (Return true) (set_deferredEvents c (put (deferredEvents c) key v)) [].
Proof.
  intros Hp Hel Hd Hq r.
  assert (Hs : satisfied d p = false).
  { unfold satisfied. now rewrite Hel. }
  subst r. repeat split.
  - now rewrite fireDeferredEvents_run.
  - now rewrite fireDeferredEvents_run.
  - now rewrite fireDeferredEvents_run.
  - intros ev w H.
    destruct (flush_fire_inv _ _ _ _ _ H) as (p' & Hp' & Hs' & _).
    congruence.
  - now apply fireEvent_deferred.
Qed.

Lemma fireDeferredEvents_redefers_C10_witness :
  get (deferredEvents
         (final (fireDeferredEvents Fixtures.detached Fixtures.pendingN))) "n"
  = Some (VNum 7).
Proof.
  apply (fireDeferredEvents_redefers_C10 "n"
           (MkProperty (MkCustomEvent "n" [MkSubscriber 1 (Some 0) true])
                       (Some 1) (Some 5) (VNum 0) (VNum 7) None false)
           5 (VNum 7) Fixtures.detached Fixtures.pendingN
           eq_refl eq_refl eq_refl eq_refl).
Defined.

(** ** Applying a configuration *)

(** C4: [applyConfig] first sets every key of [userConfig] silently: that
    pass fires nothing and gives every registered key whose validator lets
    the value through the value [userConfig] holds for it.  The fire logic
    then runs for every key on the store that pass left, does not change any
    descriptor, and every fire carries the value read from [userConfig].  A
    key whose dependency is detached gets that value queued.  With [init] set
    the snapshot becomes [userConfig] itself, whatever it was before. *)
Theorem applyConfig_C4 uc (init : bool) d c :
  let c0 := if init then set_initialConfig c uc else c in
  let r1 := silentPass uc d c0 in
  let r := applyConfig uc init d c in
  outcome r1 = Return tt /\
  trace r1 = [] /\
  (forall k p, In k (keys uc) -> get (config c) k = Some p ->
               accepts p (read uc k) = true ->
               getProperty (final r1) k = read uc k) /\
  r = firePass uc d (final r1) /\
  outcome r = Return tt /\
  config (final r) = config (final r1) /\
  trace r = flat_map (fireEntry d (config (final r1)) uc) (keys uc) /\
  (forall k p1, In k (keys uc) -> get (config (final r1)) k = Some p1 ->
                satisfied d p1 = true -> passesGate p1 = true ->
                In (PropertyFire k (event p1) (read uc k)) (trace r)) /\
  (forall k p1, In k (keys uc) -> get (config (final r1)) k = Some p1 ->
                satisfied d p1 = false ->
                get (deferredEvents (final r)) k = Some (read uc k)) /\
  (forall k ev w, In (PropertyFire k ev w) (trace r) ->
                  In k (keys uc) /\ w = read uc k) /\
  (init = true -> initialConfig (final r) = uc).
Proof.
  intros c0 r1 r.
  assert (Hc0 : config c0 = config c) by (subst c0; now destruct init).
  assert (Hr1 : r1 = MkRun (Return tt)
                       (set_config c0 (assignAll uc (keys uc) (config c0))) []).
  { subst r1. unfold silentPass. apply silent_loop. }
  assert (Hr : r = MkRun (Return tt)
                     (set_deferredEvents (final r1)
                        (fold_left (deferEntry d (config (final r1)) uc) (keys uc)
                                   (deferredEvents (final r1))))
                     (flat_map (fireEntry d (config (final r1)) uc) (keys uc))).
  { subst r. rewrite applyConfig_run. fold c0. now rewrite Hr1. }
  split; [now rewrite Hr1|]. split; [now rewrite Hr1|].
  split.
  { intros k p Hin Hp Hv. rewrite Hr1. unfold getProperty. simpl.
    rewrite <- Hc0 in Hp. now rewrite (assignAll_value uc _ _ k p Hp Hv (or_introl Hin)). }
  split; [rewrite Hr; unfold firePass; now rewrite fire_loop|].
  split; [now rewrite Hr|]. split; [now rewrite Hr|]. split; [now rewrite Hr|].
  split.
  { intros k p1 Hin Hp Hs Hg. rewrite Hr. simpl.
    apply in_flat_map. exists k. split; [exact Hin|].
    unfold fireEntry, delivery. rewrite Hp, Hs, Hg. now left. }
  split.
  { intros k p1 Hin Hp Hs. rewrite Hr. simpl.
    now apply deferAll_get with p1; auto. }
  split.
  { intros k ev w H. rewrite Hr in H. simpl in H.
    apply in_flat_map in H. destruct H as (k' & Hin & H).
    apply in_fireEntry in H. destruct H as (p' & _ & _ & _ & E).
    injection E as -> _ ->. auto. }
  intros ->. rewrite Hr, Hr1. reflexivity.
Qed.

Lemma applyConfig_C4_witness :
  let uc := [("a", VNum 10); ("b", VNum 20)] in
  getProperty (final (silentPass uc Fixtures.detached
                        (set_initialConfig Fixtures.snapshotA uc))) "b" = VNum 20 /\
  trace (applyConfig uc true Fixtures.detached Fixtures.snapshotA) =
    [PropertyFire "a" (MkCustomEvent "a" []) (VNum 10)] /\
  get (deferredEvents
         (final (applyConfig uc true Fixtures.detached Fixtures.snapshotA))) "b"
    = Some (VNum 20) /\
  initialConfig (final (applyConfig uc true Fixtures.detached Fixtures.snapshotA))
    = uc.
Proof.
  intros uc.
  destruct (applyConfig_C4 uc true Fixtures.detached Fixtures.snapshotA)
    as (_ & _ & Hset & _ & _ & _ & Htrace & _ & Hdefer & _ & Hinit).
  split.
  { apply (Hset "b" (MkProperty (MkCustomEvent "b" [MkSubscriber 1 (Some 0) true])
                                (Some 1) (Some 5) (VNum 2) (VNum 2)
                                (Some checkNumber) true));
      [right; left; reflexivity | reflexivity | reflexivity]. }
  split; [exact Htrace|].
  split.
  { apply (Hdefer "b" (MkProperty (MkCustomEvent "b" [MkSubscriber 1 (Some 0) true])
                                  (Some 1) (Some 5) (VNum 2) (VNum 20)
                                  (Some checkNumber) true));
      [right; left; reflexivity | reflexivity | reflexivity]. }
  exact (Hinit eq_refl).
Defined.

(** ** Registration *)

(** C2 (as the code has it): [addProperty] stores the descriptor with its
    default, subscribes the handler when one is given and seeds the current
    value by a silent set: the current value becomes the default when the
    validator is absent or accepts it and stays [null] otherwise, and no
    notification is fired, neither on the channel of the property nor on the
    aggregate channel. *)
Theorem addProperty_C2 key val hdl vfn el mc d c :
  let r := addProperty key val hdl vfn el mc d c in
  let accepted := match vfn with Some f => f val | None => true end in
  outcome r = Return tt /\
  trace r = [] /\
  getDefault (final r) key = val /\
  getProperty (final r) key = (if accepted then val else VNull) /\
  (exists p, get (config (final r)) key = Some p /\
             subscribers (event p) =
             match hdl with
             | Some h => [MkSubscriber h (Some (owner c)) true]
             | None => []
             end) /\
  deferredEvents (final r) = deferredEvents c.
Proof.
  intros r accepted.
  set (p0 := match hdl with
             | Some h =>
                 set_event (MkProperty (MkCustomEvent key []) hdl el val VNull vfn mc)
                   (subscribe (MkCustomEvent key [])
                      (MkSubscriber h (Some (owner c)) true))
             | None => MkProperty (MkCustomEvent key []) hdl el val VNull vfn mc
             end).
  set (c1 := set_config c (put (config c) key p0)).
  assert (Hget : get (config c1) key = Some p0) by apply get_put_same.
  assert (Hacc : accepts p0 val = accepted).
  { subst p0 accepted. unfold accepts. destruct hdl; reflexivity. }
  assert (Hsubs : subscribers (event p0) =
                  match hdl with
                  | Some h => [MkSubscriber h (Some (owner c)) true]
                  | None => []
                  end).
  { subst p0. destruct hdl; reflexivity. }
  assert (Hdef : defaultValue p0 = val) by (subst p0; destruct hdl; reflexivity).
  assert (Hval : value p0 = VNull) by (subst p0; destruct hdl; reflexivity).
  assert (Hr : r = MkRun (Return tt)
                     (if accepted
                      then set_config c1 (put (config c1) key (set_value p0 val))
                      else c1) []).
  { subst r. unfold addProperty.
    rewrite (bind_run getState _ d c c c [] eq_refl). cbn beta zeta.
    change (handler (MkProperty (MkCustomEvent key []) hdl el val VNull vfn mc))
      with hdl.
    change (event (MkProperty (MkCustomEvent key []) hdl el val VNull vfn mc))
      with (MkCustomEvent key []).
    fold p0. fold c1.
    rewrite (bind_run (putState c1) _ d c tt c1 [] eq_refl).
    destruct accepted eqn:Ha.
    - rewrite (bind_run _ _ _ _ _ _ _ (setProperty_silent key p0 val d c1 Hget Hacc)).
      reflexivity.
    - rewrite (bind_run _ _ _ _ _ _ _
                 (setProperty_rejected key p0 val true d c1 Hget Hacc)).
      reflexivity. }
  rewrite Hr. unfold getDefault, getProperty. simpl.
  destruct accepted; simpl; rewrite ?get_put_same, ?Hget; simpl.
  - repeat split; auto. exists (set_value p0 val). auto.
  - repeat split; auto. exists p0. auto.
Qed.

(** C2 as stated fails: registering "n" with default 1 and a handler fires
    nothing, although the handler is subscribed to the channel. *)
Lemma addProperty_C2_counterexample :
  let r := addProperty "n" (VNum 1) (Some 1) None None false
             Fixtures.attached (init 0) in
  get (config (final r)) "n" =
    Some (MkProperty (MkCustomEvent "n" [MkSubscriber 1 (Some 0) true])
                     (Some 1) None (VNum 1) (VNum 1) None false) /\
  trace r = [].
Proof. split; reflexivity. Qed.

(** ** Resetting one property *)

Lemma resetProperty_run key p d c :
  get (config c) key = Some p ->
  resetProperty key d c =
  match getMember (read (initialConfig c) key) "value" with
  | Return v =>
      let r := setProperty key v false d c in
      match outcome r with
      | Return _ => MkRun (Return VUndefined) (final r) (trace r)
      | Throw e => MkRun (Throw e) (final r) (trace r)
      end
  | Throw e => MkRun (Throw e) c []
  end.
Proof.
  intros Hp. unfold resetProperty.
  rewrite (bind_pure getState _ d c c c eq_refl). cbn beta. rewrite Hp.
  destruct (getMember (read (initialConfig c) key) "value") as [v|e];
    [|reflexivity].
  rewrite (bind_pure (lift (Return v)) _ d c v c eq_refl). cbn beta zeta.
  unfold bind, ret.
  destruct (setProperty key v false d c) as [[b|e] cf t]; simpl; [|reflexivity].
  now rewrite app_nil_r.
Qed.

(** C3 at the failing inputs: with snapshot [{a: 10}] and "a" set to 99,
    [resetProperty("a")] sets "a" to [undefined] and announces that value;
    for "b", registered but without a value in the snapshot, it throws. *)
Theorem resetProperty_C3_failing_input :
  let c := Fixtures.snapshotA in
  let r := resetProperty "a" Fixtures.attached c in
  get (initialConfig c) "a" = Some (VNum 10) /\
  getProperty c "a" = VNum 99 /\
  outcome r = Return VUndefined /\
  getProperty (final r) "a" = VUndefined /\
  trace r = [PropertyFire "a" (MkCustomEvent "a" []) VUndefined;
             ConfigChangedFire "a" VUndefined false] /\
  get (initialConfig c) "b" = None /\
  getProperty c "b" = VNum 2 /\
  resetProperty "b" Fixtures.attached c = MkRun (Throw TypeError) c [].
Proof. repeat split. Qed.

(** Whatever primitive the snapshot holds for a registered name, the reset
    sets the property to [undefined]; without a snapshot value it throws. *)
Lemma resetProperty_primitive key p d c :
  get (config c) key = Some p ->
  (forall n, get (initialConfig c) key = Some (VNum n) ->
             final (resetProperty key d c) =
             final (setProperty key VUndefined false d c)) /\
  (forall b, get (initialConfig c) key = Some (VBool b) ->
             final (resetProperty key d c) =
             final (setProperty key VUndefined false d c)) /\
  (get (initialConfig c) key = None ->
   resetProperty key d c = MkRun (Throw TypeError) c []).
Proof.
  intros Hp. rewrite (resetProperty_run key p d c Hp). unfold read.
  repeat split.
  - intros n ->. cbn [getMember]. cbn zeta.
    now destruct (setProperty key VUndefined false d c) as [[b|e] cf t].
  - intros b ->. cbn [getMember]. cbn zeta.
    now destruct (setProperty key VUndefined false d c) as [[b'|e] cf t].
  - now intros ->.
Qed.

(** ** The aggregate channel *)

Lemma quiet_setProperty_silent key v : quiet (setProperty key v true).
Proof.
  intros d c. destruct (get (config c) key) as [p|] eqn:Hp.
  - destruct (accepts p v) eqn:Hv.
    + now rewrite (setProperty_silent _ _ _ _ _ Hp Hv).
    + now rewrite (setProperty_rejected _ _ _ _ _ _ Hp Hv).
  - now rewrite (setProperty_unknown _ _ _ _ _ Hp).
Qed.
#[local] Hint Resolve quiet_setProperty_silent : quiet.

Lemma quiet_refireEvent key : quiet (refireEvent key).
Proof.
  unfold refireEvent. apply quiet_bind; auto with quiet.
  intros c. destruct (get (config c) key); auto with quiet.
  apply quiet_bind; auto with quiet.
Qed.

Lemma quiet_applyConfig uc init : quiet (applyConfig uc init).
Proof.
  unfold applyConfig, silentPass, firePass, assignOne, fireOne.
  repeat (apply quiet_bind; [|intro]); auto with quiet.
  - destruct init; auto with quiet.
  - apply quiet_forIn. intros prop. apply quiet_bind; auto with quiet.
  - apply quiet_forIn. intros prop. apply quiet_bind; auto with quiet.
    intros c. destruct (get (config c) prop); auto with quiet.
    apply quiet_bind; auto with quiet.
Qed.

Lemma quiet_fireDeferredEvents : quiet fireDeferredEvents.
Proof.
  intros d c. rewrite fireDeferredEvents_run. simpl.
  apply forallb_forall. intros n Hn.
  apply in_flat_map in Hn. destruct Hn as (k & _ & Hn).
  apply in_fireEntry in Hn. destruct Hn as (p & _ & _ & _ & ->). reflexivity.
Qed.

Lemma setProperty_aggregate key v silent d c :
  let r := setProperty key v silent d c in
  existsb isAggregate (trace r) = true <->
  silent = false /\ outcome r = Return true.
Proof.
  intros r. subst r.
  destruct (get (config c) key) as [p|] eqn:Hp.
  - destruct (accepts p v) eqn:Hv.
    + destruct silent.
      * rewrite (setProperty_silent _ _ _ _ _ Hp Hv). simpl.
        split; [discriminate | intros [? _]; discriminate].
      * rewrite (setProperty_loud _ _ _ _ _ Hp Hv).
        destruct (satisfied d (set_value p v)) eqn:Hs.
        -- rewrite fireEvent_satisfied by exact Hs. simpl.
           rewrite existsb_app. simpl. rewrite orb_true_r. tauto.
        -- rewrite fireEvent_deferred by exact Hs. simpl. tauto.
    + rewrite (setProperty_rejected _ _ _ _ _ _ Hp Hv). simpl.
      split; [discriminate | intros [_ ?]; discriminate].
  - rewrite (setProperty_unknown _ _ _ _ _ Hp). simpl.
    split; [discriminate | intros [_ ?]; discriminate].
Qed.

(** C9: the aggregate channel [configChangedEvent] is fired by [setProperty]
    exactly when the call is not silent and succeeds.  [applyConfig],
    [reset], [refresh], [refireEvent] and [fireDeferredEvents] never fire it
    (and neither do [addProperty] and [subscribeToConfigEvent]); the trace of
    [resetProperty] is that of the [setProperty] call it makes. *)
Theorem aggregate_channel_C9 :
  (forall key v silent d c,
      let r := setProperty key v silent d c in
      existsb isAggregate (trace r) = true <->
      silent = false /\ outcome r = Return true) /\
  (forall uc init, quiet (applyConfig uc init)) /\
  quiet reset /\
  quiet refresh /\
  (forall key, quiet (refireEvent key)) /\
  quiet fireDeferredEvents /\
  (forall key val hdl vfn el mc, quiet (addProperty key val hdl vfn el mc)) /\
  (forall key h o ovr, quiet (subscribeToConfigEvent key h o ovr)) /\
  (forall key d c,
      trace (resetProperty key d c) = [] \/
      exists v, trace (resetProperty key d c) =
                trace (setProperty key v false d c)).
Proof.
  split; [exact setProperty_aggregate|].
  split; [exact quiet_applyConfig|].
  split.
  { unfold reset. apply quiet_bind; auto with quiet.
    intros c. apply quiet_applyConfig. }
  split.
  { unfold refresh. apply quiet_bind; auto with quiet.
    intros c. apply quiet_forIn. exact quiet_refireEvent. }
  split; [exact quiet_refireEvent|].
  split; [exact quiet_fireDeferredEvents|].
  split.
  { intros. unfold addProperty. apply quiet_bind; auto with quiet.
    intros c. cbn zeta.
    apply quiet_bind; [auto with quiet | intros _].
    apply quiet_bind; [apply quiet_setProperty_silent | auto with quiet]. }
  split.
  { intros. unfold subscribeToConfigEvent. apply quiet_bind; auto with quiet.
    intros c. destruct (get (config c) key); auto with quiet. }
  intros key d c. destruct (get (config c) key) as [p|] eqn:Hp.
  - rewrite (resetProperty_run key p d c Hp).
    destruct (getMember (read (initialConfig c) key) "value") as [v|e].
    + right. exists v. cbn zeta.
      now destruct (outcome (setProperty key v false d c)).
    + now left.
  - left. unfold resetProperty.
    rewrite (bind_pure getState _ d c c c eq_refl). cbn beta.
    now rewrite Hp.
Qed.

(** ** The store after each method *)

Lemma satisfied_set_value d p v : satisfied d (set_value p v) = satisfied d p.
Proof. reflexivity. Qed.

Lemma setProperty_final key v silent d c :
  final (setProperty key v silent d c) =
  MkConfig (owner c) (assign (config c) key v)
    match get (config c) key with
    | Some p => if accepts p v && negb silent && negb (satisfied d p)
                then put (deferredEvents c) key v
                else deferredEvents c
    | None => deferredEvents c
    end
    (initialConfig c).
Proof.
  unfold assign. destruct (get (config c) key) as [p|] eqn:Hp.
  - destruct (accepts p v) eqn:Hv.
    + destruct silent.
      * now rewrite (setProperty_silent _ _ _ _ _ Hp Hv).
      * rewrite (setProperty_loud _ _ _ _ _ Hp Hv).
        destruct (satisfied d p) eqn:Hs.
        -- rewrite fireEvent_satisfied by exact Hs. reflexivity.
        -- rewrite fireEvent_deferred by exact Hs. reflexivity.
    + rewrite (setProperty_rejected _ _ _ _ _ _ Hp Hv). now destruct c.
  - rewrite (setProperty_unknown _ _ _ _ _ Hp). now destruct c.
Qed.

Lemma addProperty_final key val hdl vfn el mc d c :
  final (addProperty key val hdl vfn el mc d c) =
  set_config c
    (assign (put (config c) key (newProperty (owner c) key val hdl vfn el mc))
            key val).
Proof.
  set (p0 := newProperty (owner c) key val hdl vfn el mc).
  set (c1 := set_config c (put (config c) key p0)).
  assert (H : addProperty key val hdl vfn el mc d c =
              (setProperty key val true ;; ret tt) d c1).
  { unfold addProperty.
    rewrite (bind_pure getState _ d c c c eq_refl). cbn beta zeta.
    assert (Hp0 : match handler (MkProperty (MkCustomEvent key []) hdl el val VNull vfn mc) with
                  | Some h =>
                      set_event (MkProperty (MkCustomEvent key []) hdl el val VNull vfn mc)
                        (subscribe
                           (event (MkProperty (MkCustomEvent key []) hdl el val VNull vfn mc))
                           (MkSubscriber h (Some (owner c)) true))
                  | None => MkProperty (MkCustomEvent key []) hdl el val VNull vfn mc
                  end = p0).
    { subst p0. unfold newProperty. now destruct hdl. }
    rewrite Hp0. fold c1.
    now rewrite (bind_pure (putState c1) _ d c tt c1 eq_refl). }
  rewrite H. unfold bind, ret.
  pose proof (setProperty_final key val true d c1) as Hf.
  destruct (setProperty key val true d c1) as [[b|e] cf t]; simpl in *;
    rewrite Hf; subst c1; simpl.
  - destruct (get (put (config c) key p0) key);
      [destruct (accepts p val && false && negb (satisfied d p)) eqn:E;
       [now rewrite andb_false_r in E|]|]; reflexivity.
  - destruct (get (put (config c) key p0) key);
      [destruct (accepts p val && false && negb (satisfied d p)) eqn:E;
       [now rewrite andb_false_r in E|]|]; reflexivity.
Qed.


Lemma subscribeToConfigEvent_run key h o ovr d c :
  subscribeToConfigEvent key h o ovr d c =
  match get (config c) key with
  | Some p =>
      MkRun (Return true)
            (set_config c
               (put (config c) key
                    (set_event p (subscribe (event p) (MkSubscriber h o ovr)))))
            []
  | None => MkRun (Return false) c []
  end.
Proof.
  unfold subscribeToConfigEvent.
  rewrite (bind_pure getState _ d c c c eq_refl). cbn beta.
  now destruct (get (config c) key).
Qed.

Lemma refireEvent_run key d c :
  refireEvent key d c =
  match get (config c) key with
  | Some p =>
      if satisfied d p
      then MkRun (Return tt) c (delivery key p (value p))
      else MkRun (Return tt)
                 (set_deferredEvents c (put (deferredEvents c) key (value p))) []
  | None => MkRun (Return tt) c []
  end.
Proof.
  unfold refireEvent.
  rewrite (bind_pure getState _ d c c c eq_refl). cbn beta.
  destruct (get (config c) key) as [p|]; [|reflexivity].
  unfold bind, ret. destruct (satisfied d p) eqn:Hs.
  - rewrite fireEvent_satisfied by exact Hs. simpl. now rewrite app_nil_r.
  - rewrite fireEvent_deferred by exact Hs. reflexivity.
Qed.

(** ** getConfig *)

Lemma getConfig_fold (cfg : JSObject Property) names acc k :
  get (fold_left (fun out prop =>
                    match get cfg prop with
                    | Some property => put out prop (value property)
                    | None => out
                    end) names acc) k =
  if existsb (String.eqb k) names
  then match get cfg k with
       | Some p => Some (value p)
       | None => get acc k
       end
  else get acc k.
Proof.
  revert acc. induction names as [|a rest IH]; intros acc; simpl; auto.
  rewrite IH. destruct (String.eqb k a) eqn:E; simpl.
  - apply String.eqb_eq in E. subst a.
    destruct (get cfg k) as [p|] eqn:Hp.
    + rewrite get_put_same. now destruct (existsb (String.eqb k) rest).
    + now destruct (existsb (String.eqb k) rest).
  - assert (Hne : a <> k) by (intros ->; now rewrite String.eqb_refl in E).
    assert (Hacc : get match get cfg a with
                       | Some property => put acc a (value property)
                       | None => acc
                       end k = get acc k).
    { destruct (get cfg a); auto. now apply get_put_other. }
    now rewrite Hacc.
Qed.

Lemma existsb_eqb_in k names :
  existsb (String.eqb k) names = true <-> In k names.
Proof.
  rewrite existsb_exists. split.
  - intros (x & Hx & E). apply String.eqb_eq in E. now subst.
  - intros H. exists k. split; auto. apply String.eqb_refl.
Qed.

Lemma getConfig_get c k :
  get (getConfig c) k =
  match get (config c) k with
  | Some p => Some (value p)
  | None => None
  end.
Proof.
  unfold getConfig. rewrite getConfig_fold.
  destruct (existsb (String.eqb k) (keys (config c))) eqn:E.
  - now destruct (get (config c) k).
  - destruct (get (config c) k) as [p|] eqn:Hp; auto.
    apply get_in_keys in Hp. apply existsb_eqb_in in Hp. congruence.
Qed.


(** ** How descriptors and the queue evolve *)

Lemma sameRegistration_refl p : sameRegistration p p.
Proof.
  unfold sameRegistration. repeat split. exists []. now rewrite app_nil_r.
Qed.

Lemma accepts_same p p' v : validator p' = validator p -> accepts p' v = accepts p v.
Proof. unfold accepts. now intros ->. Qed.

Lemma later_refl p : later p p.
Proof. split; [apply sameRegistration_refl | now left]. Qed.

Lemma later_trans p1 p2 p3 : later p1 p2 -> later p2 p3 -> later p1 p3.
Proof.
  intros [(Hd & Hv & Hh & He & Hm & Ht & a & Hs) Hval]
         [(Hd' & Hv' & Hh' & He' & Hm' & Ht' & a' & Hs') Hval'].
  split.
  - unfold sameRegistration. repeat split; try congruence.
    exists (a ++ a'). rewrite Hs', Hs. now rewrite app_assoc.
  - destruct Hval' as [E|E].
    + rewrite E. exact Hval.
    + right. now rewrite <- (accepts_same p1 p2 _ Hv).
Qed.

Lemma later_set_value p v : accepts p v = true -> later p (set_value p v).
Proof.
  intros Hv. split; [|now right].
  unfold sameRegistration. simpl. repeat split.
  exists []. now rewrite app_nil_r.
Qed.

Lemma later_subscribe p s : later p (set_event p (subscribe (event p) s)).
Proof.
  split; [|now left].
  unfold sameRegistration. simpl. repeat split. now exists [s].
Qed.

Lemma evolved_refl cfg : evolved cfg cfg.
Proof. split; auto. intros k p Hp. exists p. split; auto. apply later_refl. Qed.

Lemma evolved_trans cfg1 cfg2 cfg3 :
  evolved cfg1 cfg2 -> evolved cfg2 cfg3 -> evolved cfg1 cfg3.
Proof.
  intros [Hk H] [Hk' H']. split; [congruence|].
  intros k p Hp. destruct (H k p Hp) as (p2 & Hp2 & L).
  destruct (H' k p2 Hp2) as (p3 & Hp3 & L'). exists p3. split; auto.
  now apply later_trans with p2.
Qed.

Lemma evolved_put cfg k p p' :
  get cfg k = Some p -> later p p' -> evolved cfg (put cfg k p').
Proof.
  intros Hp L. split; [now apply keys_put_present with p|].
  intros k0 p0 Hp0. destruct (String.eqb k k0) eqn:E.
  - apply String.eqb_eq in E. subst k0. exists p'.
    rewrite get_put_same. split; auto. congruence.
  - assert (Hne : k <> k0) by (intros ->; now rewrite String.eqb_refl in E).
    exists p0. rewrite get_put_other by exact Hne. split; auto. apply later_refl.
Qed.

Lemma evolved_assign cfg k v : evolved cfg (assign cfg k v).
Proof.
  unfold assign. destruct (get cfg k) as [p|] eqn:Hp; [|apply evolved_refl].
  destruct (accepts p v) eqn:Hv; [|apply evolved_refl].
  apply evolved_put with p; auto. now apply later_set_value.
Qed.

Lemma evolved_assignAll uc names : forall cfg, evolved cfg (assignAll uc names cfg).
Proof.
  induction names as [|a rest IH]; intros cfg; simpl; [apply evolved_refl|].
  eapply evolved_trans; [apply evolved_assign | apply IH].
Qed.

Lemma evolved_none cfg cfg' k :
  evolved cfg cfg' -> get cfg k = None -> get cfg' k = None.
Proof.
  intros [Hk _] Hn. destruct (get cfg' k) eqn:E; auto.
  apply get_in_keys in E. rewrite Hk in E.
  destruct (in_keys_get _ _ E). congruence.
Qed.

Lemma putAll_app q a b : putAll (putAll q a) b = putAll q (a ++ b).
Proof. unfold putAll. now rewrite fold_left_app. Qed.

Lemma evolves_refl c : evolves c c.
Proof.
  split; auto. split; [apply evolved_refl|]. exists []. split; auto.
  intros k [].
Qed.

Lemma evolves_trans c1 c2 c3 : evolves c1 c2 -> evolves c2 c3 -> evolves c1 c3.
Proof.
  intros (Ho & He & a & Ha & Hra) (Ho' & He' & b & Hb & Hrb).
  split; [congruence|]. split; [now apply evolved_trans with (config c2)|].
  exists (a ++ b). split.
  - now rewrite Hb, Ha, putAll_app.
  - intros k Hin. rewrite map_app in Hin. apply in_app_or in Hin.
    destruct Hin as [Hin|Hin]; auto.
    destruct He as [Hk _]. rewrite <- Hk. auto.
Qed.

Lemma evolves_make c cfg' puts ic :
  evolved (config c) cfg' ->
  (forall k, In k (map fst puts) -> In k (keys (config c))) ->
  evolves c (MkConfig (owner c) cfg' (putAll (deferredEvents c) puts) ic).
Proof. intros He Hr. split; auto. split; auto. now exists puts. Qed.

Lemma deferAll_putAll d cfg uc names : forall q,
  exists puts,
    fold_left (deferEntry d cfg uc) names q = putAll q puts /\
    forall k, In k (map fst puts) -> In k (keys cfg).
Proof.
  induction names as [|a rest IH]; intros q; simpl.
  - exists []. split; auto. intros k [].
  - destruct (IH (deferEntry d cfg uc q a)) as (puts & Hp & Hr).
    unfold deferEntry in *. destruct (get cfg a) as [p|] eqn:Ha.
    + destruct (satisfied d p).
      * exists puts. auto.
      * exists ((a, read uc a) :: puts). split; auto.
        intros k [<-|Hin]; auto. now apply get_in_keys with p.
    + exists puts. auto.
Qed.

Lemma evolves_setProperty key v silent d c :
  evolves c (final (setProperty key v silent d c)).
Proof.
  rewrite setProperty_final.
  destruct (get (config c) key) as [p|] eqn:Hp.
  - destruct (accepts p v && negb silent && negb (satisfied d p)).
    + apply (evolves_make c _ [(key, v)]); [apply evolved_assign|].
      intros k [<-|[]]. now apply get_in_keys with p.
    + apply (evolves_make c _ []); [apply evolved_assign|]. intros k [].
  - apply (evolves_make c _ []); [apply evolved_assign|]. intros k [].
Qed.

Lemma evolves_applyConfig uc (init : bool) d c :
  evolves c (final (applyConfig uc init d c)).
Proof.
  rewrite applyConfig_run. cbn zeta. simpl.
  assert (Hc0 : config (if init then set_initialConfig c uc else c) = config c)
    by now destruct init.
  assert (Hq0 : deferredEvents (if init then set_initialConfig c uc else c)
                = deferredEvents c) by now destruct init.
  assert (Ho0 : owner (if init then set_initialConfig c uc else c) = owner c)
    by now destruct init.
  rewrite Hc0, Hq0.
  destruct (deferAll_putAll d (assignAll uc (keys uc) (config c)) uc (keys uc)
              (deferredEvents c)) as (puts & Hp & Hr).
  unfold set_deferredEvents, set_config. simpl. rewrite Hp, Ho0.
  apply evolves_make; [apply evolved_assignAll|].
  intros k Hin. destruct (evolved_assignAll uc (keys uc) (config c)) as [Hk _].
  rewrite <- Hk. auto.
Qed.

Lemma refire_as_fireOne uc k d c :
  (forall p, get (config c) k = Some p -> read uc k = value p) ->
  refireEvent k d c = fireOne uc k d c.
Proof.
  intros H. unfold refireEvent, fireOne.
  rewrite !(bind_pure getState _ d c c c eq_refl). cbn beta.
  destruct (get (config c) k) as [p|]; [|reflexivity].
  now rewrite (H p eq_refl).
Qed.

Lemma refresh_loop uc names d : forall c,
  (forall k p, get (config c) k = Some p -> read uc k = value p) ->
  forIn names refireEvent d c = forIn names (fireOne uc) d c.
Proof.
  induction names as [|a rest IH]; intros c H; simpl; [reflexivity|].
  unfold bind. rewrite (refire_as_fireOne uc a d c (H a)).
  rewrite fireOne_run. simpl. rewrite IH; auto.
Qed.

Lemma read_getConfig c k p : get (config c) k = Some p -> read (getConfig c) k = value p.
Proof. intros H. unfold read. now rewrite getConfig_get, H. Qed.

Lemma refresh_run d c :
  refresh d c =
  MkRun (Return tt)
        (set_deferredEvents c
           (fold_left (deferEntry d (config c) (getConfig c)) (keys (config c))
                      (deferredEvents c)))
        (flat_map (fireEntry d (config c) (getConfig c)) (keys (config c))).
Proof.
  unfold refresh. rewrite (bind_pure getState _ d c c c eq_refl). cbn beta.
  rewrite (refresh_loop (getConfig c)) by (intros; now apply read_getConfig).
  apply fire_loop.
Qed.

Lemma evolves_refresh d c : evolves c (final (refresh d c)).
Proof.
  rewrite refresh_run. simpl.
  destruct (deferAll_putAll d (config c) (getConfig c) (keys (config c))
              (deferredEvents c)) as (puts & Hp & Hr).
  rewrite Hp. unfold set_deferredEvents.
  apply evolves_make; [apply evolved_refl | exact Hr].
Qed.

Lemma evolves_refireEvent key d c : evolves c (final (refireEvent key d c)).
Proof.
  rewrite refireEvent_run. destruct (get (config c) key) as [p|] eqn:Hp.
  - destruct (satisfied d p); simpl; [apply evolves_refl|].
    apply (evolves_make c _ [(key, value p)] (initialConfig c));
      [apply evolved_refl|].
    intros k [<-|[]]. now apply get_in_keys with p.
  - apply evolves_refl.
Qed.

Lemma evolves_resetProperty key d c : evolves c (final (resetProperty key d c)).
Proof.
  destruct (get (config c) key) as [p|] eqn:Hp.
  - rewrite (resetProperty_run key p d c Hp).
    destruct (getMember (read (initialConfig c) key) "value") as [v|e];
      [|apply evolves_refl].
    cbn zeta. pose proof (evolves_setProperty key v false d c) as H.
    now destruct (setProperty key v false d c) as [[b|e] cf t].
  - unfold resetProperty.
    rewrite (bind_pure getState _ d c c c eq_refl). cbn beta. rewrite Hp.
    apply evolves_refl.
Qed.

Lemma evolves_subscribe key h o ovr d c :
  evolves c (final (subscribeToConfigEvent key h o ovr d c)).
Proof.
  rewrite subscribeToConfigEvent_run.
  destruct (get (config c) key) as [p|] eqn:Hp; [|apply evolves_refl].
  simpl. unfold set_config.
  apply (evolves_make c _ [] (initialConfig c)); [|intros k []].
  apply evolved_put with p; auto. apply later_subscribe.
Qed.

Lemma evolves_perform call d c :
  isAddProperty call = false -> evolves c (perform call d c).
Proof.
  destruct call; intros H; try discriminate H; unfold perform.
  - apply evolves_setProperty.
  - apply evolves_resetProperty.
  - apply evolves_refireEvent.
  - apply evolves_applyConfig.
  - apply evolves_refresh.
  - unfold reset. rewrite (bind_pure getState _ d c c c eq_refl).
    apply evolves_applyConfig.
  - apply evolves_subscribe.
  - rewrite fireDeferredEvents_run. apply evolves_refl.
Qed.

Lemma evolves_performAll calls : forall c,
  forallb (fun cd => negb (isAddProperty (fst cd))) calls = true ->
  evolves c (performAll calls c).
Proof.
  induction calls as [|[call d] rest IH]; intros c H; cbn [performAll].
  - apply evolves_refl.
  - cbn [forallb fst] in H. apply andb_true_iff in H. destruct H as [Ha Hrest].
    apply negb_true_iff in Ha.
    eapply evolves_trans; [apply evolves_perform, Ha | apply IH, Hrest].
Qed.

(** ** Invariants of the stores that calls can build *)

Lemma in_keys_put {A : Type} (o : JSObject A) k k' a :
  In k (keys o) -> In k (keys (put o k' a)).
Proof.
  intros H. destruct (get o k') eqn:E.
  - now rewrite (keys_put_present _ _ _ _ E).
  - rewrite (keys_put_absent _ _ _ E). apply in_or_app. now left.
Qed.

Lemma in_keys_put_inv {A : Type} (o : JSObject A) k k' a :
  In k (keys (put o k' a)) -> In k (keys o) \/ k = k'.
Proof.
  destruct (get o k') eqn:E.
  - rewrite (keys_put_present _ _ _ _ E). auto.
  - rewrite (keys_put_absent _ _ _ E). intros H.
    apply in_app_or in H. destruct H as [H|[<-|[]]]; auto.
Qed.

Lemma NoDup_keys_putAll puts : forall q,
  NoDup (keys q) -> NoDup (keys (putAll q puts)).
Proof.
  induction puts as [|[k v] rest IH]; intros q H; simpl; auto.
  apply IH. now apply NoDup_keys_put.
Qed.

Lemma in_keys_putAll puts : forall q k,
  In k (keys q) -> In k (keys (putAll q puts)).
Proof.
  induction puts as [|[k' v] rest IH]; intros q k H; simpl; auto.
  apply IH. now apply in_keys_put.
Qed.

Lemma in_keys_putAll_inv puts : forall q k,
  In k (keys (putAll q puts)) -> In k (keys q) \/ In k (map fst puts).
Proof.
  induction puts as [|[k' v] rest IH]; intros q k H; simpl in *; auto.
  apply IH in H. destruct H as [H|H]; auto.
  apply in_keys_put_inv in H. destruct H as [H|H]; auto.
Qed.

Lemma evolved_back cfg cfg' k p' :
  evolved cfg cfg' -> get cfg' k = Some p' ->
  exists p, get cfg k = Some p /\ later p p'.
Proof.
  intros He Hp'. destruct (get cfg k) as [p|] eqn:Hp.
  - destruct He as [_ H]. destruct (H k p Hp) as (p2 & Hp2 & L).
    exists p. split; auto. congruence.
  - rewrite (evolved_none _ _ _ He Hp) in Hp'. discriminate.
Qed.

Lemma validated_later p p' : later p p' -> validated p -> validated p'.
Proof.
  intros [(_ & Hv & _) Hval] Hp. unfold validated in *.
  rewrite (accepts_same p p' _ Hv).
  destruct Hval as [E|E]; [rewrite E; exact Hp | now right].
Qed.

Lemma handlerFirst_later o p p' : later p p' -> handlerFirst o p -> handlerFirst o p'.
Proof.
  intros [(_ & _ & Hh & _ & _ & _ & added & Hs) _]. unfold handlerFirst.
  rewrite Hh. destruct (handler p); auto.
  intros [rest Hr]. exists (rest ++ added). now rewrite Hs, Hr.
Qed.

Lemma wellFormed_evolves c c' : evolves c c' -> wellFormed c -> wellFormed c'.
Proof.
  intros (Ho & He & puts & Hq & Hr) (Hn & Hnq & Hreg & Hd).
  pose proof He as [Hk _].
  split; [now rewrite Hk|]. split; [rewrite Hq; now apply NoDup_keys_putAll|].
  split.
  - intros k Hin. rewrite Hq in Hin. rewrite Hk.
    apply in_keys_putAll_inv in Hin. destruct Hin; auto.
  - intros k p' Hp'. destruct (evolved_back _ _ _ _ He Hp') as (p & Hp & L).
    destruct (Hd k p Hp) as (Hv & Ht & Hh).
    split; [now apply validated_later with p|].
    split.
    + destruct L as [(_ & _ & _ & _ & _ & Ht' & _) _]. congruence.
    + rewrite Ho. now apply handlerFirst_later with p.
Qed.

Lemma wellFormed_addProperty key val hdl vfn el mc d c :
  wellFormed c -> wellFormed (final (addProperty key val hdl vfn el mc d c)).
Proof.
  intros (Hn & Hnq & Hreg & Hd). rewrite addProperty_final.
  set (p0 := newProperty (owner c) key val hdl vfn el mc).
  apply wellFormed_evolves with (set_config c (put (config c) key p0)).
  - apply (evolves_make (set_config c (put (config c) key p0)) _ []
                        (initialConfig c)); [apply evolved_assign|].
    intros k [].
  - split; [now apply NoDup_keys_put|]. split; [exact Hnq|]. split.
    + intros k Hin. simpl. apply in_keys_put. now apply Hreg.
    + simpl. intros k p Hp. destruct (String.eqb key k) eqn:E.
      * apply String.eqb_eq in E. subst k. rewrite get_put_same in Hp.
        injection Hp as <-. subst p0. unfold validated, handlerFirst. simpl.
        repeat split; auto. destruct hdl; eauto.
      * assert (Hne : key <> k) by (intros ->; now rewrite String.eqb_refl in E).
        rewrite get_put_other in Hp by exact Hne. now apply Hd.
Qed.

Lemma wellFormed_init o : wellFormed (init o).
Proof.
  repeat split; try constructor; simpl; try tauto; discriminate.
Qed.

Lemma wellFormed_perform call d c : wellFormed c -> wellFormed (perform call d c).
Proof.
  intros H. destruct (isAddProperty call) eqn:E.
  - destruct call; try discriminate. now apply wellFormed_addProperty.
  - now apply wellFormed_evolves with c; [apply evolves_perform|].
Qed.

Lemma reachable_wellFormed c : reachable c -> wellFormed c.
Proof.
  induction 1; [apply wellFormed_init | now apply wellFormed_perform].
Qed.


Lemma reachable_pendingN : reachable Fixtures.pendingN.
Proof.
  exact (reachable_call _ (SetProperty "n" (VNum 7) false) Fixtures.detached
           (reachable_call _
              (AddProperty "n" (VNum 0) (Some 1) None (Some 5) false)
              Fixtures.detached (reachable_init 0))).
Defined.

(** X1: a set that passes validation, silent or not, makes the value the
    current value of the property and touches nothing else: the other
    descriptors, the order of the names, the pending values of the other
    names and the snapshot stay as they were. *)
Theorem setProperty_frame_X1 key p v silent d c :
  get (config c) key = Some p ->
  accepts p v = true ->
  let r := setProperty key v silent d c in
  outcome r = Return true /\
  getProperty (final r) key = v /\
  keys (config (final r)) = keys (config c) /\
  (forall k, k <> key -> get (config (final r)) k = get (config c) k) /\
  (forall k, k <> key ->
             get (deferredEvents (final r)) k = get (deferredEvents c) k) /\
  initialConfig (final r) = initialConfig c.
Proof.
  intros Hp Hv r.
  assert (Ho : outcome r = Return true).
  { subst r. destruct silent.
    - now rewrite (setProperty_silent _ _ _ _ _ Hp Hv).
    - rewrite (setProperty_loud _ _ _ _ _ Hp Hv).
      destruct (satisfied d (set_value p v)) eqn:Hs.
      + now rewrite fireEvent_satisfied.
      + now rewrite fireEvent_deferred. }
  split; [exact Ho|]. subst r. rewrite setProperty_final. simpl.
  rewrite Hp. unfold getProperty. simpl.
  split.
  { rewrite get_assign, Hp, String.eqb_refl, Hv. reflexivity. }
  split; [apply evolved_assign|].
  split.
  { intros k Hne. rewrite get_assign.
    assert (E : String.eqb key k = false).
    { apply String.eqb_neq. congruence. }
    rewrite E. simpl. now destruct (get (config c) k). }
  split; [|reflexivity].
  intros k Hne. destruct (accepts p v && negb silent && negb (satisfied d p)); auto.
  apply get_put_other. congruence.
Qed.

Lemma setProperty_frame_X1_witness :
  let r := setProperty "a" (VNum 5) false Fixtures.detached Fixtures.twoProps in
  getProperty (final r) "a" = VNum 5 /\ getProperty (final r) "b" = VNum 2.
Proof.
  destruct (setProperty_frame_X1 "a"
              (MkProperty (MkCustomEvent "a" []) None None (VNum 1) (VNum 1)
                          None false)
              (VNum 5) false Fixtures.detached Fixtures.twoProps
              eq_refl eq_refl) as (_ & Hget & _ & Hother & _).
  split; [exact Hget|].
  unfold getProperty. rewrite (Hother "b"); [reflexivity | discriminate].
Defined.

(** X2: whatever calls other than [addProperty] are made, no name is added
    to or removed from the store, the order of the names stays, and every
    descriptor keeps its default, validator, handler, DOM dependency,
    [mustChange] flag and channel name; subscribers are only ever added at
    the end of a channel. *)
Theorem registration_stable_X2 calls c k :
  forallb (fun cd => negb (isAddProperty (fst cd))) calls = true ->
  let c' := performAll calls c in
  keys (config c') = keys (config c) /\
  owner c' = owner c /\
  getDefault c' k = getDefault c k /\
  match get (config c) k with
  | Some p => exists p', get (config c') k = Some p' /\ sameRegistration p p'
  | None => get (config c') k = None
  end.
Proof.
  intros H c'. destruct (evolves_performAll calls c H) as (Ho & He & _).
  fold c' in Ho, He. pose proof He as [Hk Hd].
  split; [exact Hk|]. split; [exact Ho|].
  unfold getDefault. destruct (get (config c) k) as [p|] eqn:Hp.
  - destruct (Hd k p Hp) as (p' & Hp' & [S _]). rewrite Hp'.
    split; [apply S|]. exists p'. auto.
  - rewrite (evolved_none _ _ _ He Hp). auto.
Qed.

Lemma registration_stable_X2_witness :
  let c' := performAll [(SetProperty "b" (VNum 9) false, Fixtures.detached);
                        (SubscribeToConfigEvent "b" 7 None false, Fixtures.detached);
                        (ApplyConfig [("a", VNum 3)] true, Fixtures.attached);
                        (Refresh, Fixtures.attached)] Fixtures.twoProps in
  keys (config c') = ["a"; "b"] /\ getDefault c' "b" = VNum 2.
Proof.
  intros c'.
  destruct (registration_stable_X2
              [(SetProperty "b" (VNum 9) false, Fixtures.detached);
               (SubscribeToConfigEvent "b" 7 None false, Fixtures.detached);
               (ApplyConfig [("a", VNum 3)] true, Fixtures.attached);
               (Refresh, Fixtures.attached)] Fixtures.twoProps "b" eq_refl)
    as (Hk & _ & Hd & _).
  split; [exact Hk | exact Hd].
Defined.

(** X3: in every store that calls can build, no name occurs twice among the
    descriptors or in the deferred queue, and every name with a pending value
    is a registered name, so that a flush never skips an entry. *)
Theorem reachable_names_X3 c :
  reachable c ->
  NoDup (keys (config c)) /\
  NoDup (keys (deferredEvents c)) /\
  (forall k v, get (deferredEvents c) k = Some v ->
               exists p, get (config c) k = Some p).
Proof.
  intros H. destruct (reachable_wellFormed c H) as (Hn & Hq & Hreg & _).
  split; [exact Hn|]. split; [exact Hq|].
  intros k v Hv. apply in_keys_get, Hreg. now apply get_in_keys with v.
Qed.

Lemma reachable_names_X3_witness :
  NoDup (keys (config Fixtures.pendingN)) /\
  NoDup (keys (deferredEvents Fixtures.pendingN)) /\
  (forall k v, get (deferredEvents Fixtures.pendingN) k = Some v ->
               exists p, get (config Fixtures.pendingN) k = Some p).
Proof. exact (reachable_names_X3 Fixtures.pendingN reachable_pendingN). Defined.



(** X5: in every store that calls can build, the channel of a property bears
    the name of the property, and the handler given at registration is the
    first subscriber of that channel, bound to the owner of the store, so
    that it runs before any listener subscribed later. *)
Theorem reachable_channel_X5 c k p :
  reachable c ->
  get (config c) k = Some p ->
  type (event p) = k /\
  match handler p with
  | Some h => exists rest,
      subscribers (event p) = MkSubscriber h (Some (owner c)) true :: rest
  | None => True
  end.
Proof.
  intros H Hp. destruct (reachable_wellFormed c H) as (_ & _ & _ & Hd).
  destruct (Hd k p Hp) as (_ & Ht & Hh). split; [exact Ht | exact Hh].
Qed.

Lemma reachable_channel_X5_witness :
  type (event (MkProperty (MkCustomEvent "n" [MkSubscriber 1 (Some 0) true])
                          (Some 1) (Some 5) (VNum 0) (VNum 7) None false)) = "n".
Proof.
  apply (reachable_channel_X5 Fixtures.pendingN "n" _ reachable_pendingN eq_refl).
Defined.

(** ** The deferred queue and the snapshot over sequences of calls *)

Lemma pending_stays_perform call d c k :
  In k (keys (deferredEvents c)) ->
  In k (keys (deferredEvents (perform call d c))).
Proof.
  intros H. destruct (isAddProperty call) eqn:E.
  - destruct call; try discriminate. unfold perform.
    now rewrite addProperty_final.
  - destruct (evolves_perform call d c E) as (_ & _ & puts & Hq & _).
    rewrite Hq. now apply in_keys_putAll.
Qed.

(** X6: no call ever removes a name from the deferred queue: a name that has
    a pending value keeps one through any sequence of calls. *)
Theorem pending_stays_X6 calls c k v :
  get (deferredEvents c) k = Some v ->
  exists v', get (deferredEvents (performAll calls c)) k = Some v'.
Proof.
  intros H. apply in_keys_get. apply get_in_keys in H.
  revert c H. induction calls as [|[call d] rest IH]; intros c H; simpl; auto.
  apply IH. now apply pending_stays_perform.
Qed.

Lemma pending_stays_X6_witness :
  exists v',
    get (deferredEvents
           (performAll [(FireDeferredEvents, Fixtures.attached);
                        (Reset, Fixtures.attached);
                        (SetProperty "n" (VNum 1) true, Fixtures.attached)]
                       Fixtures.pendingN)) "n" = Some v'.
Proof.
  exact (pending_stays_X6 _ Fixtures.pendingN "n" (VNum 7) eq_refl).
Defined.

Lemma initialConfig_perform call d c :
  isInitialApply call = false ->
  initialConfig (perform call d c) = initialConfig c.
Proof.
  destruct call as [? ? ? ? ? ?|? ? ?|key|key|uc ini| | |key ? ? ?|];
    intros H; unfold perform.
  - now rewrite addProperty_final.
  - now rewrite setProperty_final.
  - destruct (get (config c) key) as [p|] eqn:Hp.
    + rewrite (resetProperty_run key p d c Hp).
      destruct (getMember (read (initialConfig c) key) "value") as [v|e]; auto.
      cbn zeta. pose proof (setProperty_final key v false d c) as Hf.
      destruct (setProperty key v false d c) as [[b|e] cf t]; simpl in *;
        now rewrite Hf.
    + unfold resetProperty.
      rewrite (bind_pure getState _ d c c c eq_refl). cbn beta.
      now rewrite Hp.
  - rewrite refireEvent_run. destruct (get (config c) key) as [p|]; auto.
    now destruct (satisfied d p).
  - destruct ini; [discriminate H|]. now rewrite applyConfig_run.
  - now rewrite refresh_run.
  - unfold reset. rewrite (bind_pure getState _ d c c c eq_refl).
    now rewrite applyConfig_run.
  - rewrite subscribeToConfigEvent_run. now destruct (get (config c) key).
  - now rewrite fireDeferredEvents_run.
Qed.

Lemma initialConfig_performAll calls : forall c,
  forallb (fun cd => negb (isInitialApply (fst cd))) calls = true ->
  initialConfig (performAll calls c) = initialConfig c.
Proof.
  induction calls as [|[call d] rest IH]; intros c H; cbn [performAll]; auto.
  cbn [forallb fst] in H. apply andb_true_iff in H. destruct H as [Ha Hrest].
  apply negb_true_iff in Ha.
  rewrite IH by exact Hrest. now apply initialConfig_perform.
Qed.

(** X7: the snapshot is replaced by [applyConfig(userConfig, true)], which
    makes it [userConfig], and by nothing else: any sequence of other calls
    leaves it as it was. *)
Theorem snapshot_stable_X7 calls uc d c :
  forallb (fun cd => negb (isInitialApply (fst cd))) calls = true ->
  initialConfig (performAll calls c) = initialConfig c /\
  initialConfig (performAll calls (perform (ApplyConfig uc true) d c)) = uc.
Proof.
  intros H. split; [now apply initialConfig_performAll|].
  rewrite initialConfig_performAll by exact H.
  unfold perform. now rewrite applyConfig_run.
Qed.

Lemma snapshot_stable_X7_witness :
  initialConfig
    (performAll [(Reset, Fixtures.attached);
                 (ApplyConfig [("b", VNum 4)] false, Fixtures.attached);
                 (ResetProperty "a", Fixtures.attached)] Fixtures.snapshotA)
  = [("a", VNum 10)].
Proof.
  apply (snapshot_stable_X7
           [(Reset, Fixtures.attached);
            (ApplyConfig [("b", VNum 4)] false, Fixtures.attached);
            (ResetProperty "a", Fixtures.attached)]
           [] Fixtures.attached Fixtures.snapshotA eq_refl).
Defined.

(** X8: the reset round trip.  After [applyConfig(userConfig, true)], and
    after any later calls that neither register a property nor apply another
    initial configuration, [reset()] gives every registered key of
    [userConfig] whose validator accepts the value the value [userConfig]
    holds for it. *)
Theorem reset_round_trip_X8 uc calls d0 d c k p :
  In k (keys uc) ->
  get (config c) k = Some p ->
  accepts p (read uc k) = true ->
  forallb (fun cd => negb (isAddProperty (fst cd))) calls = true ->
  forallb (fun cd => negb (isInitialApply (fst cd))) calls = true ->
  let c1 := final (applyConfig uc true d0 c) in
  let c2 := performAll calls c1 in
  getProperty (final (reset d c2)) k = read uc k.
Proof.
  intros Hin Hp Hv Hadd Hinit c1 c2.
  assert (Hsnap : initialConfig c2 = uc).
  { subst c2. rewrite initialConfig_performAll by exact Hinit.
    subst c1. now rewrite applyConfig_run. }
  assert (He : evolves c c2).
  { apply evolves_trans with c1.
    - subst c1. apply evolves_applyConfig.
    - subst c2. now apply evolves_performAll. }
  destruct He as (_ & [_ Hd] & _).
  destruct (Hd k p Hp) as (p2 & Hp2 & [(_ & Hval & _) _]).
  unfold reset. rewrite (bind_pure getState _ d c2 c2 c2 eq_refl). cbn beta.
  rewrite Hsnap, applyConfig_run. unfold getProperty. simpl.
  rewrite (assignAll_value uc (keys uc) (config c2) k p2 Hp2); auto.
  now rewrite (accepts_same p p2 _ Hval).
Qed.

Lemma reset_round_trip_X8_witness :
  getProperty
    (final (reset Fixtures.attached
              (performAll [(SetProperty "a" (VNum 99) false, Fixtures.detached);
                           (SetProperty "b" (VNum 98) true, Fixtures.detached)]
                 (final (applyConfig [("a", VNum 10); ("b", VNum 20)] true
                           Fixtures.detached Fixtures.twoProps))))) "b"
  = VNum 20.
Proof.
  apply (reset_round_trip_X8 [("a", VNum 10); ("b", VNum 20)]
           [(SetProperty "a" (VNum 99) false, Fixtures.detached);
            (SetProperty "b" (VNum 98) true, Fixtures.detached)]
           Fixtures.detached Fixtures.attached Fixtures.twoProps "b"
           (MkProperty (MkCustomEvent "b" [MkSubscriber 1 (Some 0) true])
                       (Some 1) (Some 5) (VNum 2) (VNum 2) (Some checkNumber) true));
    [right; left; reflexivity | reflexivity | reflexivity | reflexivity
    | reflexivity].
Defined.

(** ** getConfig, refresh and subscriptions *)









(** X11: a listener subscribed to a registered property is added after the
    subscribers the channel already has, and the next fire of the property
    is delivered to the channel with the listener on it; nothing is fired by
    subscribing and no value changes. *)
Theorem subscribe_then_fire_X11 key p h o ovr v d0 d c :
  get (config c) key = Some p ->
  accepts p v = true ->
  satisfied d p = true ->
  (mustChange p = true -> abstract_ne (defaultValue p) v = true) ->
  let r0 := subscribeToConfigEvent key h o ovr d0 c in
  let r := setProperty key v false d (final r0) in
  outcome r0 = Return true /\
  trace r0 = [] /\
  getProperty (final r0) key = getProperty c key /\
  trace r =
    [PropertyFire key
       (MkCustomEvent (type (event p))
                      (subscribers (event p) ++ [MkSubscriber h o ovr])) v;
     ConfigChangedFire key v false].
Proof.
  intros Hp Hv Hs Hg r0 r.
  assert (H0 : r0 = MkRun (Return true)
                      (set_config c
                         (put (config c) key
                              (set_event p (subscribe (event p) (MkSubscriber h o ovr)))))
                      []).
  { subst r0. now rewrite subscribeToConfigEvent_run, Hp. }
  split; [now rewrite H0|]. split; [now rewrite H0|].
  split.
  { rewrite H0. unfold getProperty. simpl. now rewrite get_put_same, Hp. }
  subst r. rewrite H0. cbn [final].
  set (p1 := set_event p (subscribe (event p) (MkSubscriber h o ovr))).
  set (c1 := set_config c (put (config c) key p1)).
  assert (Hp1 : get (config c1) key = Some p1) by apply get_put_same.
  rewrite (setProperty_loud key p1 v d c1 Hp1 Hv).
  rewrite fireEvent_satisfied by exact Hs.
  unfold delivery, passesGate. simpl.
  destruct (mustChange p); [rewrite Hg by reflexivity|]; reflexivity.
Qed.

Lemma subscribe_then_fire_X11_witness :
  trace (setProperty "a" (VNum 4) false Fixtures.detached
           (final (subscribeToConfigEvent "a" 9 None false Fixtures.detached
                     Fixtures.twoProps))) =
  [PropertyFire "a" (MkCustomEvent "a" [MkSubscriber 9 None false]) (VNum 4);
   ConfigChangedFire "a" (VNum 4) false].
Proof.
  apply (subscribe_then_fire_X11 "a"
           (MkProperty (MkCustomEvent "a" []) None None (VNum 1) (VNum 1)
                       None false)
           9 None false (VNum 4) Fixtures.detached Fixtures.detached
           Fixtures.twoProps eq_refl eq_refl eq_refl).
  discriminate.
Defined.

(** ** Edge cases of applyConfig, addProperty and the flush *)

Lemma assignAll_rejected uc names : forall cfg k p,
  get cfg k = Some p ->
  accepts p (read uc k) = false ->
  get (assignAll uc names cfg) k = Some p.
Proof.
  induction names as [|a rest IH]; intros cfg k p Hp Hv; simpl; auto.
  apply IH; auto. rewrite get_assign, Hp.
  destruct (String.eqb a k) eqn:E; simpl; auto.
  apply String.eqb_eq in E. subst a. now rewrite Hv.
Qed.

Lemma assignAll_unknown uc names : forall cfg,
  (forall k, In k names -> get cfg k = None) ->
  assignAll uc names cfg = cfg.
Proof.
  induction names as [|a rest IH]; intros cfg H; simpl; auto.
  assert (E : assign cfg a (read uc a) = cfg).
  { unfold assign. now rewrite (H a (or_introl eq_refl)). }
  rewrite E. apply IH. intros k Hin. apply H. now right.
Qed.

(** X12: [applyConfig] announces a value even when the validator of the
    property rejected it: for a registered key whose value in [userConfig]
    fails validation, the current value stays what it was, and yet the
    channel of the property (its dependency being absent or attached and the
    [mustChange] gate open) fires with the rejected value. *)
Theorem applyConfig_rejected_X12 uc (init : bool) d c k p :
  In k (keys uc) ->
  get (config c) k = Some p ->
  accepts p (read uc k) = false ->
  satisfied d p = true ->
  passesGate p = true ->
  let r := applyConfig uc init d c in
  getProperty (final r) k = getProperty c k /\
  In (PropertyFire k (event p) (read uc k)) (trace r).
Proof.
  intros Hin Hp Hv Hs Hg r. subst r. rewrite applyConfig_run. cbn zeta. simpl.
  assert (Hc0 : config (if init then set_initialConfig c uc else c) = config c)
    by now destruct init.
  rewrite Hc0.
  pose proof (assignAll_rejected uc (keys uc) (config c) k p Hp Hv) as Hk.
  split.
  - unfold getProperty. simpl. now rewrite Hk, Hp.
  - apply in_flat_map. exists k. split; auto.
    unfold fireEntry, delivery. rewrite Hk, Hs, Hg. now left.
Qed.

Lemma applyConfig_rejected_X12_witness :
  let c := final (setProperty "n" (VBool true) true Fixtures.attached
                    Fixtures.gatedN) in
  let r := applyConfig [("n", VNum 3)] false Fixtures.attached c in
  getProperty (final r) "n" = getProperty c "n" /\
  In (PropertyFire "n" (MkCustomEvent "n" [MkSubscriber 1 (Some 0) true]) (VNum 3))
     (trace r).
Proof.
  exact (applyConfig_rejected_X12 [("n", VNum 3)] false Fixtures.attached
           (final (setProperty "n" (VBool true) true Fixtures.attached
                     Fixtures.gatedN)) "n"
           (MkProperty (MkCustomEvent "n" [MkSubscriber 1 (Some 0) true])
                       (Some 1) None (VBool false) (VBool true)
                       (Some checkBoolean) true)
           (or_introl eq_refl) eq_refl eq_refl eq_refl eq_refl).
Defined.

Lemma firePass_unknown d cfg uc names : forall q,
  (forall k, In k names -> get cfg k = None) ->
  fold_left (deferEntry d cfg uc) names q = q /\
  flat_map (fireEntry d cfg uc) names = [].
Proof.
  induction names as [|a rest IH]; intros q H; simpl; auto.
  unfold deferEntry at 2. unfold fireEntry at 1.
  rewrite (H a (or_introl eq_refl)). simpl.
  apply IH. intros k Hin. apply H. now right.
Qed.

(** X13: keys of [userConfig] that are not registered are ignored by
    [applyConfig]: when none of its keys is registered the call fires
    nothing and changes nothing, except that with [init] set the snapshot
    still becomes [userConfig]. *)
Theorem applyConfig_unknown_X13 uc d c :
  (forall k, In k (keys uc) -> get (config c) k = None) ->
  applyConfig uc false d c = MkRun (Return tt) c [] /\
  applyConfig uc true d c = MkRun (Return tt) (set_initialConfig c uc) [].
Proof.
  intros H. split; rewrite applyConfig_run; cbn zeta; simpl.
  - rewrite (assignAll_unknown uc (keys uc) (config c) H).
    destruct (firePass_unknown d (config c) uc (keys uc) (deferredEvents c) H)
      as [Hq Ht].
    rewrite Hq, Ht. now destruct c.
  - rewrite (assignAll_unknown uc (keys uc) (config c) H).
    destruct (firePass_unknown d (config c) uc (keys uc) (deferredEvents c) H)
      as [Hq Ht].
    now rewrite Hq, Ht.
Qed.

Lemma applyConfig_unknown_X13_witness :
  applyConfig [("nope", VNum 1); ("other", VNull)] false Fixtures.attached
              Fixtures.twoProps = MkRun (Return tt) Fixtures.twoProps [].
Proof.
  apply (applyConfig_unknown_X13 [("nope", VNum 1); ("other", VNull)]
           Fixtures.attached Fixtures.twoProps).
  intros k [<-|[<-|[]]]; reflexivity.
Defined.

(** X14: [addProperty] puts a new name at the end of the registration order
    and replaces the descriptor of a name that is already registered where it
    stands; the other descriptors, the snapshot and the deferred queue
    (including a value still pending for the re-registered name) are left
    as they were. *)
Theorem addProperty_frame_X14 key val hdl vfn el mc d c :
  let c' := final (addProperty key val hdl vfn el mc d c) in
  keys (config c') = match get (config c) key with
                     | Some _ => keys (config c)
                     | None => keys (config c) ++ [key]
                     end /\
  (forall k, k <> key -> get (config c') k = get (config c) k) /\
  deferredEvents c' = deferredEvents c /\
  initialConfig c' = initialConfig c /\
  owner c' = owner c.
Proof.
  intros c'. subst c'. rewrite addProperty_final. simpl.
  set (p0 := newProperty (owner c) key val hdl vfn el mc).
  split.
  - destruct (evolved_assign (put (config c) key p0) key val) as [Hk _].
    rewrite Hk. destruct (get (config c) key) eqn:E.
    + now apply keys_put_present with p.
    + now apply keys_put_absent.
  - repeat split. intros k Hne. rewrite get_assign.
    assert (E : String.eqb key k = false) by (apply String.eqb_neq; congruence).
    rewrite E. simpl.
    rewrite get_put_other by congruence. now destruct (get (config c) k).
Qed.

(** X15: a flush repeats itself: since [fireDeferredEvents] leaves the queue
    as it is, a second flush made with the same document fires the very
    notifications of the first once more. *)
Theorem flush_repeats_X15 key p v d c :
  get (deferredEvents c) key = Some v ->
  get (config c) key = Some p ->
  satisfied d p = true ->
  passesGate p = true ->
  let r := (fireDeferredEvents ;; fireDeferredEvents) d c in
  outcome r = Return tt /\
  final r = c /\
  trace r = trace (fireDeferredEvents d c) ++ trace (fireDeferredEvents d c) /\
  In (PropertyFire key (event p) v) (trace (fireDeferredEvents d c)).
Proof.
  intros Hq Hp Hs Hg r. subst r. unfold bind.
  rewrite !fireDeferredEvents_run. cbn [outcome final trace].
  rewrite ?fireDeferredEvents_run. cbn [outcome final trace].
  repeat split.
  apply in_flat_map. exists key. split; [now apply get_in_keys with v|].
  unfold fireEntry, delivery. rewrite Hp, Hs, Hg, (read_get _ _ _ Hq). now left.
Qed.

Lemma flush_repeats_X15_witness :
  trace ((fireDeferredEvents ;; fireDeferredEvents)
           Fixtures.attached Fixtures.pendingN) =
  [PropertyFire "n" (MkCustomEvent "n" [MkSubscriber 1 (Some 0) true]) (VNum 7);
   PropertyFire "n" (MkCustomEvent "n" [MkSubscriber 1 (Some 0) true]) (VNum 7)].
Proof.
  destruct (flush_repeats_X15 "n"
              (MkProperty (MkCustomEvent "n" [MkSubscriber 1 (Some 0) true])
                          (Some 1) (Some 5) (VNum 0) (VNum 7) None false)
              (VNum 7) Fixtures.attached Fixtures.pendingN
              eq_refl eq_refl eq_refl eq_refl) as (_ & _ & Ht & _).
  exact Ht.
Defined.

Lemma filter_fireEntry key d cfg q a :
  filter (firesFor key) (fireEntry d cfg q a) =
  if String.eqb a key then fireEntry d cfg q a else [].
Proof.
  unfold fireEntry, delivery.
  destruct (get cfg a) as [p|]; [|now destruct (String.eqb a key)].
  destruct (satisfied d p); [|now destruct (String.eqb a key)].
  destruct (passesGate p); [|now destruct (String.eqb a key)].
  simpl. now destruct (String.eqb a key).
Qed.

Lemma filter_flush key d cfg q names :
  NoDup names -> In key names ->
  filter (firesFor key) (flat_map (fireEntry d cfg q) names) =
  fireEntry d cfg q key.
Proof.
  assert (Hout : forall l, ~ In key l ->
            filter (firesFor key) (flat_map (fireEntry d cfg q) l) = []).
  { induction l as [|a l IH]; intros Hn; simpl; auto.
    rewrite filter_app, filter_fireEntry, IH by (intros ?; apply Hn; now right).
    destruct (String.eqb a key) eqn:E; auto.
    apply String.eqb_eq in E. destruct Hn. now left. }
  induction names as [|a rest IH]; intros Hnd Hin; [destruct Hin|].
  inversion Hnd as [|? ? Ha Hrest]; subst. simpl.
  rewrite filter_app, filter_fireEntry.
  destruct (String.eqb a key) eqn:E.
  - apply String.eqb_eq in E. subst a. rewrite Hout by exact Ha.
    apply app_nil_r.
  - destruct Hin as [->|Hin]; [now rewrite String.eqb_refl in E|].
    now apply IH.
Qed.

(** X16: the deferral round trip.  A non-silent set made while the DOM
    dependency of the property is detached fires nothing on its channel; once
    the dependency is attached, [fireDeferredEvents] fires the channel of the
    property exactly once, with the value that was set (provided, for a
    [mustChange] property, that the value is [!=] to the default). *)
Theorem deferral_round_trip_X16 key p el v d1 d2 c :
  NoDup (keys (deferredEvents c)) ->
  get (config c) key = Some p ->
  dependentElement p = Some el ->
  d1 el = false ->
  d2 el = true ->
  accepts p v = true ->
  (mustChange p = true -> abstract_ne (defaultValue p) v = true) ->
  let r1 := setProperty key v false d1 c in
  let r2 := fireDeferredEvents d2 (final r1) in
  filter (firesFor key) (trace r1) = [] /\
  outcome r2 = Return tt /\
  filter (firesFor key) (trace r2) = [PropertyFire key (event p) v].
Proof.
  intros Hnd Hp Hel Hd1 Hd2 Hv Hg r1 r2.
  assert (Hs1 : satisfied d1 (set_value p v) = false).
  { unfold satisfied. simpl. now rewrite Hel. }
  assert (Hr1 : r1 = MkRun (Return true)
                       (set_deferredEvents
                          (set_config c (put (config c) key (set_value p v)))
                          (put (deferredEvents c) key v))
                       [ConfigChangedFire key v true]).
  { subst r1. rewrite (setProperty_loud key p v d1 c Hp Hv).
    now rewrite (fireEvent_deferred _ _ _ _ _ Hs1). }
  split; [now rewrite Hr1|].
  subst r2. rewrite fireDeferredEvents_run. split; [reflexivity|].
  rewrite Hr1. simpl.
  rewrite filter_flush.
  - unfold fireEntry, delivery, passesGate, satisfied, read.
    rewrite !get_put_same. simpl. rewrite Hel, Hd2.
    destruct (mustChange p); [rewrite Hg by reflexivity|]; reflexivity.
  - now apply NoDup_keys_put.
  - apply get_in_keys with v. apply get_put_same.
Qed.

Lemma deferral_round_trip_X16_witness :
  filter (firesFor "b")
    (trace (fireDeferredEvents Fixtures.attached
              (final (setProperty "b" (VNum 7) false Fixtures.detached
                        Fixtures.twoProps)))) =
  [PropertyFire "b" (MkCustomEvent "b" [MkSubscriber 1 (Some 0) true]) (VNum 7)].
Proof.
  apply (deferral_round_trip_X16 "b"
           (MkProperty (MkCustomEvent "b" [MkSubscriber 1 (Some 0) true])
                       (Some 1) (Some 5) (VNum 2) (VNum 2) (Some checkNumber) true)
           5 (VNum 7) Fixtures.detached Fixtures.attached Fixtures.twoProps);
    try reflexivity.
  constructor.
Defined.

(** ** The default of the iframe shim *)

(** X17: the "iframe" property of an Overlay defaults to [true] exactly for
    a user agent that is not Opera and either is Internet Explorer before
    version 7, or is Gecko (neither IE nor Safari) on a Macintosh that does
    not also name Windows; in particular never for Opera or IE 7, whatever
    else the user-agent string contains. *)
Theorem iframeDefault_X17 ua :
  (iframeDefault ua = true <->
   contains ua "opera" = false /\
   contains ua "msie 7" = false /\
   (contains ua "msie" = true \/
    (contains ua "msie" = false /\
     contains ua "safari" = false /\
     contains ua "gecko" = true /\
     contains ua "windows" = false /\
     contains ua "win32" = false /\
     contains ua "macintosh" = true))) /\
  (contains ua "opera" = true -> iframeDefault ua = false) /\
  (contains ua "msie 7" = true -> iframeDefault ua = false).
Proof.
  unfold iframeDefault, browser, platform.
  set (o := contains ua "opera"). set (i7 := contains ua "msie 7").
  set (i := contains ua "msie"). set (s := contains ua "safari").
  set (g := contains ua "gecko"). set (w := contains ua "windows").
  set (w32 := contains ua "win32"). set (m := contains ua "macintosh").
  clearbody o i7 i s g w w32 m.
  destruct o, i7, i, s, g, w, w32, m; cbn;
    (split; [split; [intros H; try discriminate H; tauto
                    | intros (H1 & H2 & [H3|(H3 & H4 & H5 & H6 & H7 & H8)]);
                      try discriminate; reflexivity]
            | split; intros H; try discriminate H; reflexivity]).
Qed.

Lemma iframeDefault_X17_witness :
  iframeDefault "mozilla/4.0 (compatible; msie 6.0; windows nt 5.1)" = true /\
  iframeDefault "mozilla/4.0 (compatible; msie 7.0; windows nt 5.1)" = false /\
  iframeDefault "opera/9.0 (compatible; msie 6.0; windows nt 5.1)" = false.
Proof.
  split; [|split].
  - destruct (iframeDefault_X17
                "mozilla/4.0 (compatible; msie 6.0; windows nt 5.1)")
      as ([_ H] & _). apply H. vm_compute. auto.
  - destruct (iframeDefault_X17
                "mozilla/4.0 (compatible; msie 7.0; windows nt 5.1)")
      as (_ & _ & H). apply H. reflexivity.
  - destruct (iframeDefault_X17
                "opera/9.0 (compatible; msie 6.0; windows nt 5.1)")
      as (_ & H & _). apply H. reflexivity.
Defined.
